(** * The log-to-record extraction engine of the poker log analyzer

    A shallow embedding of [load_log_data] (src/analyzer/analyzer.py,
    lines 11-148) and the properties of its scanner.

    Conventions of the embedding.
    - The input is the list of lines that [f.readlines()] returns; a line
      is a [string] and keeps its terminating newline.
    - Text is ASCII: the classes [\d], [\w] and the white space removed by
      [strip()] are the ASCII ones.
    - Python integers are unbounded and appear as [Z].  Limits of the
      interpreter (recursion depth, the digit limit of [int()]) are outside
      the model.
    - An exception that escapes the loop body is caught by the
      [except Exception] of line 143: the whole call gives the empty frame. *)

From Stdlib Require Import ZArith Ascii String List Bool Lia.
From stdpp Require Import base option list strings gmap fin_maps.
From stdpp Require Import sorting.

#[local] Set Warnings "-register-all".
#[local] Arguments String.append !s1 s2 : simpl nomatch.

Open Scope string_scope.
Open Scope Z_scope.

(** ** Text primitives *)

Module Text.

(** The newline character. *)
Definition nl : ascii := ascii_of_nat 10.
Definition NL : string := String nl "".

Definition code (c : ascii) : nat := nat_of_ascii c.

(** [\d] *)
Definition is_digit (c : ascii) : bool :=
  ((48 <=? code c) && (code c <=? 57))%nat.

(** [\w] *)
Definition is_word (c : ascii) : bool :=
  (is_digit c
   || ((65 <=? code c) && (code c <=? 90))
   || ((97 <=? code c) && (code c <=? 122))
   || (code c =? 95))%nat.

(** The characters for which [str.isspace()] holds. *)
Definition is_space (c : ascii) : bool :=
  (((9 <=? code c) && (code c <=? 13))
   || ((28 <=? code c) && (code c <=? 32)))%nat.

(** [.] of a regular expression without DOTALL. *)
Definition is_dot (c : ascii) : bool := negb (Ascii.eqb c nl).

(** [s.count(c)] for a one-character needle. *)
Fixpoint count (c : ascii) (s : string) : Z :=
  match s with
  | EmptyString => 0
  | String d t => (if Ascii.eqb d c then 1 else 0) + count c t
  end.

(** [c in s] for a one-character needle. *)
Fixpoint contains (c : ascii) (s : string) : bool :=
  match s with
  | EmptyString => false
  | String d t => Ascii.eqb d c || contains c t
  end.

(** [s[:k+1]] where [k = s.rfind(c)], for a string that holds [c]; the
    empty string when it does not ([rfind] gives -1 and [s[:0]] is
    empty). *)
Fixpoint upto_last (c : ascii) (s : string) : string :=
  match s with
  | EmptyString => EmptyString
  | String d t =>
      if contains c t then String d (upto_last c t)
      else if Ascii.eqb d c then String d EmptyString
      else EmptyString
  end.

(** The longest prefix whose characters satisfy [f], and the rest. *)
Fixpoint span (f : ascii -> bool) (s : string) : string * string :=
  match s with
  | EmptyString => (EmptyString, EmptyString)
  | String c t =>
      if f c then let '(a, b) := span f t in (String c a, b)
      else (EmptyString, s)
  end.

(** Removes the literal [p] from the front of [s]. *)
Fixpoint strip_prefix (p s : string) : option string :=
  match p with
  | EmptyString => Some s
  | String c p' =>
      match s with
      | EmptyString => None
      | String d s' => if Ascii.eqb c d then strip_prefix p' s' else None
      end
  end.

Fixpoint lstrip (s : string) : string :=
  match s with
  | EmptyString => EmptyString
  | String c t => if is_space c then lstrip t else s
  end.

Fixpoint all_space (s : string) : bool :=
  match s with
  | EmptyString => true
  | String c t => is_space c && all_space t
  end.

Fixpoint rstrip (s : string) : string :=
  match s with
  | EmptyString => EmptyString
  | String c t => if all_space s then EmptyString else String c (rstrip t)
  end.

(** [s.strip()] *)
Definition strip (s : string) : string := rstrip (lstrip s).

(** [int(s)] for a string of decimal digits. *)
Definition digit_val (c : ascii) : Z := Z.of_nat (code c) - 48.

Fixpoint int_acc (acc : Z) (s : string) : Z :=
  match s with
  | EmptyString => acc
  | String c t => int_acc (10 * acc + digit_val c) t
  end.

Definition int_of (s : string) : Z := int_acc 0 s.

Fixpoint all_chars (f : ascii -> bool) (s : string) : bool :=
  match s with
  | EmptyString => true
  | String c t => f c && all_chars f t
  end.

(** [sep.join(l)] *)
Fixpoint join (sep : string) (l : list string) : string :=
  match l with
  | [] => EmptyString
  | [x] => x
  | x :: rest => x +:+ sep +:+ join sep rest
  end.

(** The characters of a string, each as a string: what iterating over a
    [str] yields. *)
Fixpoint chars (s : string) : list string :=
  match s with
  | EmptyString => []
  | String c t => String c EmptyString :: chars t
  end.

(** Notation for literals in examples: in the argument an apostrophe
    stands for the double quote and a backslash followed by [n] for the
    newline, so that [lit] of a line reads like the line of the log. *)
Fixpoint lit (s : string) : string :=
  match s with
  | EmptyString => EmptyString
  | String c t =>
      if (code c =? 39)%nat then String (ascii_of_nat 34) (lit t)
      else if (code c =? 92)%nat then
        match t with
        | String d t' =>
            if (code d =? 110)%nat then String nl (lit t') else String c (lit t)
        | EmptyString => String c EmptyString
        end
      else String c (lit t)
  end.

End Text.

(** ** The three line patterns (lines 35, 43 and 96) *)

Module Re.
Import Text.

(** [re.search]: the pattern is tried at every position from the left
    and the first position where it matches wins. *)
Fixpoint search {A : Type} (m : string -> option A) (s : string) : option A :=
  match m s with
  | Some x => Some x
  | None =>
      match s with
      | EmptyString => None
      | String _ t => search m t
      end
  end.

(** A greedy [\d+] or [\w+]: in each of the three patterns the class is
    followed by a literal character outside the class, so only the
    longest run can match. *)
Definition plus (f : ascii -> bool) (s : string) : option (string * string) :=
  match span f s with
  | (EmptyString, _) => None
  | (run, rest) => Some (run, rest)
  end.

(** The pattern of line 35, [=== STARTING NEW HAND #(\d+) ===], matched
    at the front of [s]; the result is group 1. *)
Definition hand_at (s : string) : option string :=
  rest ← strip_prefix "=== STARTING NEW HAND #" s;
  '(ds, rest) ← plus is_digit rest;
  _ ← strip_prefix " ===" rest;
  Some ds.

(** The pattern of line 43, [LLM Prompt for (Agent\d+): \{], matched at
    the front of [s]; the result is group 1. *)
Definition prompt_at (s : string) : option string :=
  rest ← strip_prefix "LLM Prompt for Agent" s;
  '(ds, rest) ← plus is_digit rest;
  _ ← strip_prefix ": {" rest;
  Some ("Agent" +:+ ds).

(** The pattern of line 96,
    [\[(Agent\d+)\] Successfully parsed decision: (\w+), (\d+), ] and
    then a last group that takes the rest of the line up to its newline,
    matched at the front of [s]; the result is groups 1 to 4. *)
Definition decision_at (s : string) : option (string * string * string * string) :=
  rest ← strip_prefix "[Agent" s;
  '(ds, rest) ← plus is_digit rest;
  rest ← strip_prefix "] Successfully parsed decision: " rest;
  '(act, rest) ← plus is_word rest;
  rest ← strip_prefix ", " rest;
  '(amt, rest) ← plus is_digit rest;
  rest ← strip_prefix ", " rest;
  Some ("Agent" +:+ ds, act, amt, fst (span is_dot rest)).

Definition hand_match (line : string) : option string := search hand_at line.
Definition prompt_match (line : string) : option string := search prompt_at line.
Definition decision_match (line : string)
  : option (string * string * string * string) := search decision_at line.

End Re.

(** ** JSON values and [json.loads]

    [json.loads] belongs to Python's standard library.  It is modelled by a
    recursive-descent parser for the grammar that [json.decoder] accepts
    (objects, arrays, strings with escapes, numbers, [true], [false],
    [null], [NaN], [Infinity], [-Infinity]; strict mode, no trailing data).
    [None] stands for [json.JSONDecodeError]. *)

Module Json.
Import Text.

(** What [json.loads] returns.  An object is a Python [dict]: its keys
    are distinct and keep their insertion order.  A number with a
    fraction or an exponent is a [float], kept as its literal. *)
Inductive value : Type :=
| JNull
| JBool (b : bool)
| JInt (z : Z)
| JFloat (lit : string)
| JString (s : string)
| JArray (items : list value)
| JObject (members : list (string * value)).

(** [d[k] = v] *)
Fixpoint dict_set (k : string) (v : value) (d : list (string * value))
  : list (string * value) :=
  match d with
  | [] => [(k, v)]
  | (k', v') :: rest =>
      if String.eqb k k' then (k, v) :: rest else (k', v') :: dict_set k v rest
  end.

(** [d.get(k)], [None] when the key is absent. *)
Fixpoint dict_get (k : string) (d : list (string * value)) : option value :=
  match d with
  | [] => None
  | (k', v') :: rest => if String.eqb k k' then Some v' else dict_get k rest
  end.

Definition is_ws (c : ascii) : bool :=
  ((code c =? 32) || (code c =? 9) || (code c =? 10) || (code c =? 13))%nat.

Fixpoint skip_ws (s : string) : string :=
  match s with
  | EmptyString => EmptyString
  | String c t => if is_ws c then skip_ws t else s
  end.

Definition hex_val (c : ascii) : option N :=
  let n := code c in
  if ((48 <=? n) && (n <=? 57))%nat then Some (N.of_nat (n - 48))
  else if ((65 <=? n) && (n <=? 70))%nat then Some (N.of_nat (n - 55))
  else if ((97 <=? n) && (n <=? 102))%nat then Some (N.of_nat (n - 87))
  else None.

Definition hex4 (a b c d : ascii) : option N :=
  x ← hex_val a; y ← hex_val b; z ← hex_val c; w ← hex_val d;
  Some (((x * 16 + y) * 16 + z) * 16 + w)%N.

Definition byte (n : N) : ascii := ascii_of_N n.

(** The UTF-8 bytes of a code point below 65536.  Each [\u] escape is
    encoded on its own. *)
Definition utf8 (cp : N) : string :=
  if (cp <? 128)%N then String (byte cp) ""
  else if (cp <? 2048)%N then
    String (byte (192 + cp / 64)) (String (byte (128 + cp mod 64)) "")
  else
    String (byte (224 + cp / 4096))
      (String (byte (128 + (cp / 64) mod 64))
         (String (byte (128 + cp mod 64)) "")).

Definition simple_escape (c : ascii) : option ascii :=
  let n := code c in
  if (n =? 34)%nat then Some c              (* quote *)
  else if (n =? 92)%nat then Some c         (* backslash *)
  else if (n =? 47)%nat then Some c         (* slash *)
  else if (n =? 98)%nat then Some (ascii_of_nat 8)
  else if (n =? 102)%nat then Some (ascii_of_nat 12)
  else if (n =? 110)%nat then Some (ascii_of_nat 10)
  else if (n =? 114)%nat then Some (ascii_of_nat 13)
  else if (n =? 116)%nat then Some (ascii_of_nat 9)
  else None.

(** The body of a string literal, after its opening quote: the decoded
    text and what follows the closing quote. *)
Fixpoint scanstring (s : string) : option (string * string) :=
  match s with
  | EmptyString => None
  | String c t =>
      if (code c =? 34)%nat then Some (EmptyString, t)
      else if (code c =? 92)%nat then
        match t with
        | EmptyString => None
        | String e t' =>
            if (code e =? 117)%nat then
              match t' with
              | String h1 (String h2 (String h3 (String h4 r))) =>
                  cp ← hex4 h1 h2 h3 h4;
                  '(body, rest) ← scanstring r;
                  Some (utf8 cp +:+ body, rest)
              | _ => None
              end
            else
              d ← simple_escape e;
              '(body, rest) ← scanstring t';
              Some (String d body, rest)
        end
      else if (code c <? 32)%nat then None
      else
        '(body, rest) ← scanstring t;
        Some (String c body, rest)
  end.

Definition is_digit19 (c : ascii) : bool := ((49 <=? code c) && (code c <=? 57))%nat.

(** The integer part of a number: [0], or a digit from 1 to 9 and more
    digits. *)
Definition scan_int (s : string) : option (string * string) :=
  match s with
  | String c t =>
      if (code c =? 48)%nat then Some (String c "", t)
      else if is_digit19 c then
        let '(ds, rest) := span is_digit t in Some (String c ds, rest)
      else None
  | EmptyString => None
  end.

(** An optional fraction: a dot and at least one digit. *)
Definition scan_frac (s : string) : string * string :=
  match s with
  | String c t =>
      if (code c =? 46)%nat then
        match span is_digit t with
        | (EmptyString, _) => (EmptyString, s)
        | (ds, rest) => (String c ds, rest)
        end
      else (EmptyString, s)
  | EmptyString => (EmptyString, s)
  end.

(** An optional exponent: [e] or [E], an optional sign, at least one
    digit. *)
Definition scan_exp (s : string) : string * string :=
  match s with
  | String c t =>
      if ((code c =? 101) || (code c =? 69))%nat then
        let '(sign, t') :=
          match t with
          | String g u =>
              if ((code g =? 43) || (code g =? 45))%nat then (String g "", u)
              else (EmptyString, t)
          | EmptyString => (EmptyString, t)
          end in
        match span is_digit t' with
        | (EmptyString, _) => (EmptyString, s)
        | (ds, rest) => (String c (sign +:+ ds), rest)
        end
      else (EmptyString, s)
  | EmptyString => (EmptyString, s)
  end.

Definition scan_number (s : string) : option (value * string) :=
  let '(neg, body) :=
    match s with
    | String c t => if (code c =? 45)%nat then (true, t) else (false, s)
    | EmptyString => (false, s)
    end in
  '(ip, rest) ← scan_int body;
  let '(frac, rest) := scan_frac rest in
  let '(ex, rest) := scan_exp rest in
  match frac, ex with
  | EmptyString, EmptyString =>
      Some (JInt (if neg then - int_of ip else int_of ip), rest)
  | _, _ =>
      Some (JFloat ((if neg then "-" else "") +:+ ip +:+ frac +:+ ex), rest)
  end.

(** The literals, tried when the text starts neither a string, an object
    nor an array. *)
Definition scan_atom (s : string) : option (value * string) :=
  match strip_prefix "null" s with
  | Some r => Some (JNull, r)
  | None =>
  match strip_prefix "true" s with
  | Some r => Some (JBool true, r)
  | None =>
  match strip_prefix "false" s with
  | Some r => Some (JBool false, r)
  | None =>
  match scan_number s with
  | Some res => Some res
  | None =>
  match strip_prefix "NaN" s with
  | Some r => Some (JFloat "NaN", r)
  | None =>
  match strip_prefix "Infinity" s with
  | Some r => Some (JFloat "Infinity", r)
  | None =>
  match strip_prefix "-Infinity" s with
  | Some r => Some (JFloat "-Infinity", r)
  | None => None
  end end end end end end end.

(** One value at the front of [s].  [fuel] bounds the depth of the
    calls; every second call has consumed a character, so the fuel that
    [loads] gives is enough ([loads_fuel] below). *)
Fixpoint parse_value (fuel : nat) (s : string) : option (value * string) :=
  match fuel with
  | O => None
  | S fuel =>
      match s with
      | String c t =>
          if (code c =? 34)%nat then
            '(str, rest) ← scanstring t; Some (JString str, rest)
          else if (code c =? 123)%nat then
            match skip_ws t with
            | String d r =>
                if (code d =? 125)%nat then Some (JObject [], r)
                else
                  '(kv, rest) ← parse_members fuel [] (String d r);
                  Some (JObject kv, rest)
            | EmptyString => None
            end
          else if (code c =? 91)%nat then
            match skip_ws t with
            | String d r =>
                if (code d =? 93)%nat then Some (JArray [], r)
                else
                  '(l, rest) ← parse_items fuel [] (String d r);
                  Some (JArray l, rest)
            | EmptyString => None
            end
          else scan_atom s
      | EmptyString => None
      end
  end

(** The members of an object from a key on, up to the closing brace. *)
with parse_members (fuel : nat) (acc : list (string * value)) (s : string)
  : option (list (string * value) * string) :=
  match fuel with
  | O => None
  | S fuel =>
      match s with
      | String q t =>
          if (code q =? 34)%nat then
            '(k, rest) ← scanstring t;
            match skip_ws rest with
            | String colon rest =>
                if (code colon =? 58)%nat then
                  '(v, rest) ← parse_value fuel (skip_ws rest);
                  let acc := dict_set k v acc in
                  match skip_ws rest with
                  | String d rest =>
                      if (code d =? 125)%nat then Some (acc, rest)
                      else if (code d =? 44)%nat then
                        parse_members fuel acc (skip_ws rest)
                      else None
                  | EmptyString => None
                  end
                else None
            | EmptyString => None
            end
          else None
      | EmptyString => None
      end
  end

(** The items of an array from a value on, up to the closing bracket. *)
with parse_items (fuel : nat) (acc : list value) (s : string)
  : option (list value * string) :=
  match fuel with
  | O => None
  | S fuel =>
      '(v, rest) ← parse_value fuel s;
      let acc := (acc ++ [v])%list in
      match skip_ws rest with
      | String d rest =>
          if (code d =? 93)%nat then Some (acc, rest)
          else if (code d =? 44)%nat then parse_items fuel acc (skip_ws rest)
          else None
      | EmptyString => None
      end
  end.

(** [json.loads(s)] *)
Definition loads (s : string) : option value :=
  '(v, rest) ← parse_value (2 * String.length s + 2) (skip_ws s);
  match skip_ws rest with
  | EmptyString => Some v
  | String _ _ => None
  end.

End Json.

(** ** The engine: [load_log_data], lines 19-148 *)

Module Engine.
Import Text Re Json.

(** One row of the result (the dictionary of lines 121-132). *)
Record ActionRecord : Type := mkRecord {
  hand_id : Z;
  agent_name : string;
  phase : string;
  your_chips_before : value;
  your_cards : string;
  community_cards : string;
  action : string;
  amount : Z;
  reasoning : string;
  input_prompt_json : value
}.

(** Exceptions that the loop body can raise. *)
Inductive exn : Type := TypeError | AttributeError.

Inductive res (A : Type) : Type :=
| Ok (a : A)
| Raise (e : exn).
Arguments Ok {A} a.
Arguments Raise {A} e.

#[global] Instance res_ret : MRet res := fun A a => Ok a.
#[global] Instance res_bind : MBind res := fun A B f m =>
  match m with
  | Ok a => f a
  | Raise e => Raise e
  end.

(** [d.get(k, default)]; only a [dict] has the method. *)
Definition py_get (d : value) (k : string) (default : value) : res value :=
  match d with
  | JObject kv =>
      Ok (match dict_get k kv with Some v => v | None => default end)
  | _ => Raise AttributeError
  end.

(** [len(v)] *)
Definition py_len (v : value) : res nat :=
  match v with
  | JArray l => Ok (List.length l)
  | JString s => Ok (String.length s)
  | JObject kv => Ok (List.length kv)
  | _ => Raise TypeError
  end.

(** The items of a list when all of them are strings. *)
Fixpoint strings_of (l : list value) : option (list string) :=
  match l with
  | [] => Some []
  | JString s :: rest => cons s <$> strings_of rest
  | _ :: _ => None
  end.

(** [sep.join(v)]: [v] is iterated, a list gives its items, a string
    its characters, a dictionary its keys; an item that is not a string
    and a value that cannot be iterated raise [TypeError]. *)
Definition py_join (sep : string) (v : value) : res string :=
  match v with
  | JArray l =>
      match strings_of l with
      | Some strs => Ok (join sep strs)
      | None => Raise TypeError
      end
  | JString s => Ok (join sep (chars s))
  | JObject kv => Ok (join sep (List.map fst kv))
  | _ => Raise TypeError
  end.

(** Lines 110-119. *)
Definition derive_phase (num_community_cards : nat) : string :=
  match num_community_cards with
  | 0%nat => "preflop"
  | 3%nat => "flop"
  | 4%nat => "turn"
  | 5%nat => "river"
  | _ => "unknown"
  end.

(** Lines 104-132: the row for a decision whose agent has a cached
    prompt. *)
Definition correlate (current_hand : Z) (agent action : string) (amount : Z)
    (reasoning : string) (prompt_data : value) : res ActionRecord :=
  community_cards_list ← py_get prompt_data "community" (JArray []);
  num_community_cards ← py_len community_cards_list;
  let derived_phase := derive_phase num_community_cards in
  chips ← py_get prompt_data "your_chips" (JInt 0);
  cards ← py_get prompt_data "your_cards" (JArray []);
  cards_str ← py_join ", " cards;
  community_str ← py_join ", " community_cards_list;
  Ok {| hand_id := current_hand;
        agent_name := agent;
        phase := derived_phase;
        your_chips_before := chips;
        your_cards := cards_str;
        community_cards := community_str;
        action := action;
        amount := amount;
        reasoning := reasoning;
        input_prompt_json := prompt_data |}.

(** The local variables of the scan: the cursor [i], the hand, the
    prompt cache and the rows collected so far. *)
Record state : Type := mkState {
  i : nat;
  current_hand : Z;
  agent_prompts : gmap string (value * string);
  data : list ActionRecord
}.

(** Lines 19-24. *)
Definition init : state :=
  {| i := 0; current_hand := 0; agent_prompts := ∅; data := [] |}.

(** The inner loop of lines 52-77 over [rest], the lines from the
    cursor on.  The result is the cursor, the text and the brace level
    when the loop is left, by [break] or because the input ended. *)
Fixpoint read_block (rest : list string) (i : nat) (json_str : string)
    (bracket_level : Z) : nat * string * Z :=
  match rest with
  | [] => (i, json_str, bracket_level)
  | json_line :: rest' =>
      let brace_close_count := count "}" json_line in
      if 0 <? brace_close_count then
        let bracket_level := bracket_level - brace_close_count in
        if bracket_level =? 0 then
          (i, json_str +:+ upto_last "}" json_line, bracket_level)
        else if bracket_level <? 0 then
          (i, json_str +:+ json_line, bracket_level)
        else
          read_block rest' (S i) (json_str +:+ json_line) bracket_level
      else if contains "{" json_line then
        read_block rest' (S i) (json_str +:+ json_line)
          (bracket_level + count "{" json_line)
      else
        read_block rest' (S i) (json_str +:+ json_line) bracket_level
  end.

(** One iteration of the outer loop, lines 32-141.  The loop runs it
    only while the cursor is on a line; past the last line it is the
    identity. *)
Definition body (lines : list string) (st : state) : res state :=
  match lines !! i st with
  | None => Ok st
  | Some line =>
      match hand_match line with
      | Some n =>
          Ok {| i := S (i st);
                current_hand := int_of n;
                agent_prompts := ∅;
                data := data st |}
      | None =>
      match prompt_match line with
      | Some agent =>
          let '(i', json_str, bracket_level) :=
            read_block (drop (S (i st)) lines) (S (i st)) ("{" +:+ NL) 1 in
          if negb (bracket_level =? 0) then
            Ok {| i := S i';
                  current_hand := current_hand st;
                  agent_prompts := agent_prompts st;
                  data := data st |}
          else
            match loads json_str with
            | Some prompt_data =>
                Ok {| i := S i';
                      current_hand := current_hand st;
                      agent_prompts :=
                        <[agent := (prompt_data, json_str)]> (agent_prompts st);
                      data := data st |}
            | None =>
                Ok {| i := S i';
                      current_hand := current_hand st;
                      agent_prompts := delete agent (agent_prompts st);
                      data := data st |}
            end
      | None =>
      match decision_match line with
      | Some (agent, act, amt, reason) =>
          match agent_prompts st !! agent with
          | Some (prompt_data, prompt_str) =>
              row ← correlate (current_hand st) agent act (int_of amt)
                      (strip reason) prompt_data;
              Ok {| i := S (i st);
                    current_hand := current_hand st;
                    agent_prompts := agent_prompts st;
                    data := data st ++ [row] |}
          | None =>
              Ok {| i := S (i st);
                    current_hand := current_hand st;
                    agent_prompts := agent_prompts st;
                    data := data st |}
          end
      | None =>
          Ok {| i := S (i st);
                current_hand := current_hand st;
                agent_prompts := agent_prompts st;
                data := data st |}
      end end end
  end.

(** The outer loop, [while i < line_count].  Every iteration moves the
    cursor forward, so [fuel] equal to the number of lines is enough
    ([scan_exec] below). *)
Fixpoint scan (fuel : nat) (lines : list string) (st : state) : res state :=
  if (i st <? List.length lines)%nat then
    match fuel with
    | O => Ok st
    | S fuel => st' ← body lines st; scan fuel lines st'
    end
  else Ok st.

(** What the caller receives: the frame built from the rows, or the
    empty frame together with the diagnostic of line 145. *)
Inductive outcome : Type :=
| Frame (rows : list ActionRecord)
| Failed (e : exn).

(** The rows of the frame that is returned. *)
Definition rows_of (o : outcome) : list ActionRecord :=
  match o with
  | Frame rows => rows
  | Failed _ => []
  end.

(** Lines 143-148: the frame of the rows, or the handler of the
    exception. *)
Definition finish (r : res state) : outcome :=
  match r with
  | Ok st => Frame (data st)
  | Raise e => Failed e
  end.

(** The state when the loop is left. *)
Definition final_state (lines : list string) : res state :=
  scan (List.length lines) lines init.

(** The call, once the file has been read. *)
Definition load_log_data (lines : list string) : outcome :=
  finish (final_state lines).

(** [f.readlines()] on the text of the file (after the newline
    translation of text mode): every line keeps its newline. *)
Fixpoint readlines (text : string) : list string :=
  match text with
  | EmptyString => []
  | String c t =>
      if Ascii.eqb c nl then NL :: readlines t
      else
        match readlines t with
        | [] => [String c EmptyString]
        | l :: ls => String c l :: ls
        end
  end.

(** The loop as a relation between the state at its head and the
    outcome of the call. *)
Inductive exec (lines : list string) : state -> outcome -> Prop :=
| exec_done st :
    (List.length lines <= i st)%nat ->
    exec lines st (Frame (data st))
| exec_raise st e :
    (i st < List.length lines)%nat ->
    body lines st = Raise e ->
    exec lines st (Failed e)
| exec_iter st st' o :
    (i st < List.length lines)%nat ->
    body lines st = Ok st' ->
    exec lines st' o ->
    exec lines st o.

End Engine.

(** ** The filters of the dashboard: [main], lines 174-211 and 282-297

    The frame is the list of its rows; the index of a row is its position.
    The choices of the widgets are parameters. *)

Module Dashboard.
Import Text Json Engine.

(** [Series.unique()]: the values in the order of their first occurrence. *)
Fixpoint unique {A : Type} `{EqDecision A} (l : list A) : list A :=
  match l with
  | [] => []
  | x :: rest => x :: filter (fun y => y <> x) (unique rest)
  end.

(** [sorted] is a stable sort: an item goes before the first item that is
    not below it, the items being taken from the last to the first. *)
Fixpoint insert_sorted {A : Type} (le : A -> A -> bool) (x : A) (l : list A) : list A :=
  match l with
  | [] => [x]
  | y :: rest => if le x y then x :: y :: rest else y :: insert_sorted le x rest
  end.

Fixpoint sorted {A : Type} (le : A -> A -> bool) (l : list A) : list A :=
  match l with
  | [] => []
  | x :: rest => insert_sorted le x (sorted le rest)
  end.

(** Line 178. *)
Definition poker_phase_order : list (string * nat) :=
  [("preflop", 0%nat); ("flop", 1%nat); ("turn", 2%nat); ("river", 3%nat)].

(** [poker_phase_order.get(p, 99)] *)
Definition phase_key (p : string) : nat :=
  match List.find (fun kv => String.eqb (fst kv) p) poker_phase_order with
  | Some kv => snd kv
  | None => 99%nat
  end.

(** Lines 174-181. *)
Definition all_players (df : list ActionRecord) : list string :=
  sorted String.leb (unique (agent_name <$> df)).

Definition all_hands (df : list ActionRecord) : list Z :=
  sorted Z.leb (unique (hand_id <$> df)).

Definition all_phases (df : list ActionRecord) : list string :=
  sorted (fun p q => (phase_key p <=? phase_key q)%nat) (unique (phase <$> df)).

(** Lines 202-208: the clauses of the query. *)
Definition query_parts (selected_hands : list Z) : list string :=
  ["`agent_name` in @selected_players"; "`phase` in @selected_phases"]
  ++ match selected_hands with
     | [] => []
     | _ :: _ => ["`hand_id` in @selected_hands"]
     end.

(** Line 210. *)
Definition query_str (selected_hands : list Z) : string :=
  join " & " (query_parts selected_hands).

(** What a clause says of a row: a column is in a list. *)
Definition clause_holds (selected_players : list string) (selected_hands : list Z)
    (selected_phases : list string) (r : ActionRecord) (clause : string) : bool :=
  if String.eqb clause "`agent_name` in @selected_players" then
    bool_decide (agent_name r ∈ selected_players)
  else if String.eqb clause "`phase` in @selected_phases" then
    bool_decide (phase r ∈ selected_phases)
  else if String.eqb clause "`hand_id` in @selected_hands" then
    bool_decide (hand_id r ∈ selected_hands)
  else false.

(** Line 211, [df.query(query_str)]: the rows for which every clause
    holds, each with its index. *)
Definition filtered_df (df : list ActionRecord) (selected_players : list string)
    (selected_hands : list Z) (selected_phases : list string)
  : list (nat * ActionRecord) :=
  filter
    (fun ir => forallb (clause_holds selected_players selected_hands selected_phases
                          (snd ir))
                 (query_parts selected_hands) = true)
    (imap pair df).

(** Lines 282-288. *)
Definition available_indices (filtered : list (nat * ActionRecord)) : list nat :=
  let indices := fst <$> filtered in
  if (1000 <? List.length indices)%nat then take 1000 indices else indices.

End Dashboard.

Import Text Re Json Engine.
Import Dashboard.

(** * Notions used in the statements *)

(** A string is empty or starts with a character outside the class. *)
Definition stops (f : ascii -> bool) (s : string) : Prop :=
  match s with
  | EmptyString => True
  | String c _ => f c = false
  end.

(** The names the engine knows: [Agent] and at least one digit. *)
Definition agent_form (name : string) : Prop :=
  exists ds : string,
    ds <> EmptyString /\ all_chars is_digit ds = true /\ name = "Agent" +:+ ds.

(** The fields of a row, read from the prompt it was built from. *)
Definition row_fields (r : ActionRecord) (kv : list (string * value)) : Prop :=
  exists (community cards : value) (n : nat),
    py_get (JObject kv) "community" (JArray []) = Ok community /\
    py_len community = Ok n /\
    phase r = derive_phase n /\
    py_join ", " community = Ok (community_cards r) /\
    py_get (JObject kv) "your_chips" (JInt 0) = Ok (your_chips_before r) /\
    py_get (JObject kv) "your_cards" (JArray []) = Ok cards /\
    py_join ", " cards = Ok (your_cards r).

(** A well-formed row: its agent has the form of a name, its action is a
    word, its prompt is an object and its fields come from that object. *)
Definition row_ok (r : ActionRecord) : Prop :=
  agent_form (agent_name r) /\
  all_chars is_word (action r) = true /\
  exists kv, input_prompt_json r = JObject kv /\ row_fields r kv.

(** A well-formed cache: every key has the form of a name and holds an
    object together with the text it was parsed from. *)
Definition cache_ok (m : gmap string (value * string)) : Prop :=
  forall (a : string) (pd : value) (raw : string),
    m !! a = Some (pd, raw) ->
    agent_form a /\ loads raw = Some pd /\ exists kv, pd = JObject kv.

(** The invariant of the scan. *)
Definition inv (st : state) : Prop :=
  cache_ok (agent_prompts st) /\ Forall row_ok (data st).

(** A key is absent or holds a list of strings, the type the log gives it. *)
Definition absent_or_strings (k : string) (kv : list (string * value)) : Prop :=
  dict_get k kv = None \/ exists l : list string, dict_get k kv = Some (JArray (List.map JString l)).





(** The row was built from the decision of line [j]. *)
Definition stems_from (lines : list string) (j : nat) (r : ActionRecord) : Prop :=
  exists l amt reason : string,
    lines !! j = Some l /\
    decision_match l = Some (agent_name r, action r, amt, reason) /\
    all_chars is_digit amt = true /\
    amount r = int_of amt /\
    reasoning r = strip reason.

(** The hand is the initial one or the number of a marker of the log. *)
Definition hand_of_log (lines : list string) (h : Z) : Prop :=
  h = 0 \/
  exists l n : string,
    l ∈ lines /\ hand_match l = Some n /\ all_chars is_digit n = true /\ h = int_of n.

(** What one iteration does, branch by branch. *)
Inductive step (lines : list string) : state -> state -> Prop :=
| step_hand st line n :
    lines !! i st = Some line ->
    hand_match line = Some n ->
    step lines st {| i := S (i st); current_hand := int_of n; agent_prompts := ∅;
               data := data st |}
| step_prompt st line agent i' js lv cache :
    lines !! i st = Some line ->
    hand_match line = None ->
    prompt_match line = Some agent ->
    read_block (drop (S (i st)) lines) (S (i st)) ("{" +:+ NL) 1 = (i', js, lv) ->
    (lv <> 0 /\ cache = agent_prompts st \/
     lv = 0 /\ (exists pd, loads js = Some pd /\
                           cache = <[agent := (pd, js)]> (agent_prompts st)) \/
     lv = 0 /\ loads js = None /\ cache = delete agent (agent_prompts st)) ->
    step lines st {| i := S i'; current_hand := current_hand st; agent_prompts := cache;
               data := data st |}
| step_row st line agent act amt reason pd raw row :
    lines !! i st = Some line ->
    hand_match line = None ->
    prompt_match line = None ->
    decision_match line = Some (agent, act, amt, reason) ->
    agent_prompts st !! agent = Some (pd, raw) ->
    correlate (current_hand st) agent act (int_of amt) (strip reason) pd = Ok row ->
    step lines st {| i := S (i st); current_hand := current_hand st;
               agent_prompts := agent_prompts st; data := data st ++ [row] |}
| step_skip st line :
    lines !! i st = Some line ->
    hand_match line = None ->
    prompt_match line = None ->
    (decision_match line = None \/
     exists agent act amt reason,
       decision_match line = Some (agent, act, amt, reason) /\
       agent_prompts st !! agent = None) ->
    step lines st {| i := S (i st); current_hand := current_hand st;
               agent_prompts := agent_prompts st; data := data st |}.

(** The lines of a block, appended one after the other. *)
Fixpoint concat_lines (ls : list string) : string :=
  match ls with
  | [] => EmptyString
  | l :: rest => l +:+ concat_lines rest
  end.

(** The balance of a line: its opening braces less its closing braces. *)
Definition net (l : string) : Z := count "{" l - count "}" l.

(** The level after the lines [ls], started at [lv]. *)
Fixpoint depth (lv : Z) (ls : list string) : Z :=
  match ls with
  | [] => lv
  | l :: rest => depth (lv + net l) rest
  end.

(** The text is the block that a prompt-start line of [agent] opens in
    the log: the brace and a newline, the lines after the prompt-start
    line whole, and the last line up to its last closing brace. *)
Definition block_of (lines : list string) (agent raw : string) : Prop :=
  exists (j k : nat) (start pre tail : string),
    lines !! j = Some start /\
    prompt_match start = Some agent /\
    (j < k)%nat /\
    lines !! k = Some (pre +:+ String "}" tail) /\
    contains "}" tail = false /\
    raw = "{" +:+ NL +:+ concat_lines (take (k - S j) (drop (S j) lines))
            +:+ pre +:+ "}".

(** The outcome of a log that follows rows already collected. *)
Definition after_rows (rows : list ActionRecord) (o : outcome) : outcome :=
  match o with
  | Frame more => Frame (rows ++ more)
  | Failed e => Failed e
  end.

(** The state of a scan that has [k] lines and the rows [rows] before it. *)
Definition shifted (k : nat) (rows : list ActionRecord) (st : state) : state :=
  {| i := k + i st; current_hand := current_hand st;
     agent_prompts := agent_prompts st; data := rows ++ data st |}.

(** * Logs used as examples *)

(** The six lines of the example, as [readlines] gives them. *)
Definition example_lines : list string :=
  [ lit "=== STARTING NEW HAND #3 ===\n";
    lit "LLM Prompt for Agent1: {\n";
    lit "'your_chips': 980,\n";
    lit "'your_cards': ['Ah','Kd'],\n";
    lit "'community': []}\n";
    lit "[Agent1] Successfully parsed decision: raise, 40, strong hand\n" ].

(** The row that the example expects. *)
Definition example_row : ActionRecord :=
  {| hand_id := 3;
     agent_name := "Agent1";
     phase := "preflop";
     your_chips_before := JInt 980;
     your_cards := "Ah, Kd";
     community_cards := "";
     action := "raise";
     amount := 40;
     reasoning := "strong hand";
     input_prompt_json :=
       JObject [ ("your_chips", JInt 980);
                 ("your_cards", JArray [JString "Ah"; JString "Kd"]);
                 ("community", JArray []) ] |}.

(** A log whose prompt is the empty object. *)
Definition bare_lines : list string :=
  [ lit "=== STARTING NEW HAND #7 ===\n";
    lit "LLM Prompt for Agent2: {\n";
    lit "}\n";
    lit "[Agent2] Successfully parsed decision: fold, 0, nothing to go on\n" ].

(** The row of [bare_lines]: every field of the prompt is a default. *)
Definition bare_row : ActionRecord :=
  {| hand_id := 7;
     agent_name := "Agent2";
     phase := "preflop";
     your_chips_before := JInt 0;
     your_cards := "";
     community_cards := "";
     action := "fold";
     amount := 0;
     reasoning := "nothing to go on";
     input_prompt_json := JObject [] |}.

(** Two prompts for the same agent in one hand, then its decision. *)
Definition twice_lines : list string :=
  [ lit "=== STARTING NEW HAND #3 ===\n";
    lit "LLM Prompt for Agent1: {\n";
    lit "'your_chips': 100\n";
    lit "}\n";
    lit "LLM Prompt for Agent1: {\n";
    lit "'your_chips': 50\n";
    lit "}\n";
    lit "[Agent1] Successfully parsed decision: call, 10, second look\n" ].

(** The state at the second prompt of [twice_lines]. *)
Definition twice_state : state :=
  {| i := 4;
     current_hand := 3;
     agent_prompts :=
       {[ "Agent1" := (JObject [("your_chips", JInt 100)], lit "{\n'your_chips': 100\n}") ]};
     data := [] |}.

(** A hand in which Agent1 is prompted and decides, then a hand in which
    only Agent2 is prompted and Agent1 decides. *)
Definition orphan_lines : list string :=
  [ lit "=== STARTING NEW HAND #1 ===\n";
    lit "LLM Prompt for Agent1: {\n";
    lit "'your_chips': 100}\n";
    lit "[Agent1] Successfully parsed decision: call, 10, ok\n";
    lit "=== STARTING NEW HAND #2 ===\n";
    lit "LLM Prompt for Agent2: {\n";
    lit "'your_chips': 70}\n";
    lit "[Agent1] Successfully parsed decision: fold, 0, late\n" ].

(** The row of the first hand of [orphan_lines]. *)
Definition orphan_row : ActionRecord :=
  {| hand_id := 1; agent_name := "Agent1"; phase := "preflop";
     your_chips_before := JInt 100; your_cards := ""; community_cards := "";
     action := "call"; amount := 10; reasoning := "ok";
     input_prompt_json := JObject [("your_chips", JInt 100)] |}.

(** The state of the scan of [orphan_lines] at the second marker. *)
Definition orphan_state_4 : state :=
  {| i := 4; current_hand := 1;
     agent_prompts :=
       {[ "Agent1" := (JObject [("your_chips", JInt 100)], lit "{\n'your_chips': 100}") ]};
     data := [orphan_row] |}.




(** The entry that the first prompt of [mismatch_lines] and of
    [truncated_lines] gives to Agent1. *)
Definition first_prompt : value * string :=
  (JObject [("your_chips", JInt 100)], lit "{\n'your_chips': 100}").

(** The state of the scan of [mismatch_lines] at the second prompt. *)
Definition mismatch_state_3 : state :=
  {| i := 3; current_hand := 3;
     agent_prompts := {[ "Agent1" := first_prompt ]};
     data := [] |}.


(** A second prompt of Agent1 that the end of the log cuts short. *)
Definition truncated_lines : list string :=
  [ lit "=== STARTING NEW HAND #3 ===\n";
    lit "LLM Prompt for Agent1: {\n";
    lit "'your_chips': 100}\n";
    lit "LLM Prompt for Agent1: {\n";
    lit "'your_chips': 50,\n" ].

(** The prompt of Agent1 holds an object that opens and closes on the
    fourth line. *)
Definition nested_lines : list string :=
  [ lit "=== STARTING NEW HAND #3 ===\n";
    lit "LLM Prompt for Agent1: {\n";
    lit "'your_chips': 980,\n";
    lit "'pot': {'main': 120},\n";
    lit "'community': []\n";
    lit "}\n";
    lit "[Agent1] Successfully parsed decision: raise, 40, strong hand\n" ].

(** The text of the object of [nested_lines], from its opening brace to
    the brace that closes it. *)
Definition nested_text : string :=
  lit "{\n'your_chips': 980,\n'pot': {'main': 120},\n'community': []\n}".

(** The prompt of Agent1 holds a list of two objects; the sixth line
    closes the first and opens the second. *)
Definition players_lines : list string :=
  [ lit "=== STARTING NEW HAND #3 ===\n";
    lit "LLM Prompt for Agent1: {\n";
    lit "'your_chips': 980,\n";
    lit "'players': [{\n";
    lit "'name': 'Agent1'\n";
    lit "}, {\n";
    lit "'name': 'Agent2'\n";
    lit "}],\n";
    lit "'community': []\n";
    lit "}\n";
    lit "[Agent1] Successfully parsed decision: raise, 40, strong hand\n" ].

(** The text of the object of [players_lines]. *)
Definition players_text : string :=
  lit "{\n'your_chips': 980,\n'players': [{\n'name': 'Agent1'\n}, {\n'name': 'Agent2'\n}],\n'community': []\n}".

(** The same text up to the brace of the eighth line. *)
Definition players_cut : string :=
  lit "{\n'your_chips': 980,\n'players': [{\n'name': 'Agent1'\n}, {\n'name': 'Agent2'\n}".



(** A second prompt of Agent1 whose block closes but does not parse. *)
Definition garbled_lines : list string :=
  [ lit "=== STARTING NEW HAND #3 ===\n";
    lit "LLM Prompt for Agent1: {\n";
    lit "'your_chips': 100}\n";
    lit "LLM Prompt for Agent1: {\n";
    lit "your_chips = 50}\n";
    lit "[Agent1] Successfully parsed decision: call, 10, gone\n" ].





(** * Properties *)

(** ** The loop: progress, termination, determinism *)

Section Loop.
Variable lines : list string.

(** The inner loop moves the cursor forward and not beyond the input. *)
Lemma read_block_cursor (rest : list string) :
  forall (i0 : nat) (js : string) (lv : Z) (i' : nat) (js' : string) (lv' : Z),
    read_block rest i0 js lv = (i', js', lv') ->
    (i0 <= i' <= i0 + List.length rest)%nat.
Proof.
  induction rest as [|json_line rest IH]; intros i0 js lv i' js' lv' H; simpl in H.
  - injection H as <- _ _. simpl. lia.
  - destruct (0 <? count "}" json_line).
    + destruct (lv - count "}" json_line =? 0).
      { injection H as <- _ _. simpl. lia. }
      destruct (lv - count "}" json_line <? 0).
      { injection H as <- _ _. simpl. lia. }
      apply IH in H. simpl. lia.
    + destruct (contains "{" json_line); apply IH in H; simpl; lia.
Qed.

(** Every iteration moves the cursor forward. *)
Lemma body_advances (st st' : state) :
  (i st < List.length lines)%nat ->
  body lines st = Ok st' ->
  (i st < i st')%nat.
Proof.
  intros Hlt. unfold body.
  destruct (lookup_lt_is_Some_2 lines (i st) Hlt) as [line ->].
  destruct (hand_match line).
  { intros [= <-]. simpl. lia. }
  destruct (prompt_match line).
  { destruct (read_block _ _ _ _) as [[i' js] lv] eqn:Hrb.
    apply read_block_cursor in Hrb.
    destruct (negb (lv =? 0)).
    - intros [= <-]. simpl. lia.
    - destruct (loads js); intros [= <-]; simpl; lia. }
  destruct (decision_match line) as [[[[agent act] amt] reason]|].
  - destruct (agent_prompts st !! agent) as [[pd ps]|].
    + destruct (correlate _ _ _ _ _ _); simpl; [intros [= <-]; simpl; lia | discriminate].
    + intros [= <-]. simpl. lia.
  - intros [= <-]. simpl. lia.
Qed.

(** The function [scan] computes the outcome of the loop as soon as its
    fuel covers the lines that are left. *)
Lemma scan_exec (fuel : nat) :
  forall st : state,
    (List.length lines - i st <= fuel)%nat ->
    exec lines st (finish (scan fuel lines st)).
Proof.
  induction fuel as [|fuel IH]; intros st Hfuel.
  - simpl. destruct (i st <? List.length lines)%nat eqn:Hi.
    + apply Nat.ltb_lt in Hi. lia.
    + apply Nat.ltb_ge in Hi. simpl. by apply exec_done.
  - simpl. destruct (i st <? List.length lines)%nat eqn:Hi.
    + apply Nat.ltb_lt in Hi.
      destruct (body lines st) as [st'|e] eqn:Hb; simpl.
      * apply exec_iter with st'; [done | done |].
        apply IH. apply body_advances in Hb; [lia | done].
      * by apply exec_raise.
    + apply Nat.ltb_ge in Hi. simpl. by apply exec_done.
Qed.

(** The loop has one outcome. *)
Lemma exec_deterministic (st : state) (o1 o2 : outcome) :
  exec lines st o1 -> exec lines st o2 -> o1 = o2.
Proof.
  intros H1. revert o2.
  induction H1 as [st Hge | st e Hlt Hb | st st' o Hlt Hb _ IH]; intros o2 H2.
  - inversion H2; subst; [done | lia | lia].
  - inversion H2; subst; [lia | congruence | congruence].
  - inversion H2 as [? Hge' | ? ? ? Hb' | ? st2 ? ? Hb' Hrest]; subst;
      [lia | congruence |].
    rewrite Hb in Hb'. injection Hb' as <-. by apply IH.
Qed.

End Loop.

(** The loop terminates, with the outcome that [load_log_data] returns. *)
Lemma load_log_data_exec (lines : list string) :
  exec lines init (load_log_data lines).
Proof. apply scan_exec. simpl. lia. Qed.

(** ** What the three patterns capture *)

Section Matching.

(** [strip_prefix] succeeds on the texts that start with the literal. *)
Lemma strip_prefix_Some (p s r : string) :
  strip_prefix p s = Some r <-> s = p +:+ r.
Proof.
  revert s. induction p as [|c p IH]; intros s; simpl.
  - split; [by intros [= ->] | by intros ->].
  - destruct s as [|d s]; [split; discriminate|].
    destruct (Ascii.eqb_spec c d) as [->|Hne].
    + rewrite IH. split; [by intros -> | by intros [= ->]].
    + split; [discriminate | intros [= -> _]; done].
Qed.

#[local] Arguments strip_prefix : simpl never.

(** [span] splits the text into a run of the class and a rest that
    stops it. *)
Lemma span_spec (f : ascii -> bool) (s run rest : string) :
  span f s = (run, rest) ->
  s = run +:+ rest /\ all_chars f run = true /\ stops f rest.
Proof.
  revert run rest. induction s as [|c s IH]; intros run rest; simpl.
  - by intros [= <- <-].
  - destruct (f c) eqn:Hc.
    + destruct (span f s) as [a b]. intros [= <- <-].
      destruct (IH a b eq_refl) as (-> & Ha & Hb). simpl. by rewrite Hc, Ha.
    + intros [= <- <-]. simpl. by rewrite Hc.
Qed.

Lemma plus_spec (f : ascii -> bool) (s run rest : string) :
  plus f s = Some (run, rest) ->
  run <> EmptyString /\ s = run +:+ rest /\ all_chars f run = true /\ stops f rest.
Proof.
  unfold plus. destruct (span f s) as [a b] eqn:Hspan.
  destruct a as [|c a]; [discriminate|]. intros [= <- <-].
  split; [discriminate | by apply span_spec].
Qed.

(** A match of [re.search] is a match of the pattern at some position. *)
Lemma search_Some {A : Type} (m : string -> option A) (s : string) (x : A) :
  search m s = Some x -> exists pre suf, s = pre +:+ suf /\ m suf = Some x.
Proof.
  induction s as [|c s IH]; simpl.
  - destruct (m EmptyString) eqn:Hm; [|discriminate].
    intros [= <-]. by exists EmptyString, EmptyString.
  - destruct (m (String c s)) eqn:Hm.
    + intros [= <-]. by exists EmptyString, (String c s).
    + intros H. destruct (IH H) as (pre & suf & -> & Hsuf).
      by exists (String c pre), suf.
Qed.

Lemma search_None {A : Type} (m : string -> option A) (s : string) :
  search m s = None <-> forall pre suf, s = pre +:+ suf -> m suf = None.
Proof.
  induction s as [|c s IH]; simpl.
  - destruct (m EmptyString) eqn:Hm.
    + split; [discriminate|]. intros H. by rewrite (H EmptyString EmptyString) in Hm.
    + split; [|done]. intros _ [|d pre] suf; simpl; [by intros <- | discriminate].
  - destruct (m (String c s)) eqn:Hm.
    + split; [discriminate|]. intros H.
      by rewrite (H EmptyString (String c s)) in Hm.
    + rewrite IH. split.
      * intros H [|d pre] suf; simpl; [by intros <-|].
        intros [= <- ->]. by eapply H.
      * intros H pre suf ->. by apply (H (String c pre) suf).
Qed.

Lemma prompt_at_form (s name : string) :
  prompt_at s = Some name -> agent_form name.
Proof.
  unfold prompt_at.
  destruct (strip_prefix "LLM Prompt for Agent" s) as [r1|]; simpl; [|discriminate].
  destruct (plus is_digit r1) as [[ds r2]|] eqn:Hplus; simpl; [|discriminate].
  destruct (strip_prefix ": {" r2); simpl; [|discriminate].
  intros [= <-]. apply plus_spec in Hplus as (Hne & _ & Hds & _).
  by exists ds.
Qed.

Lemma decision_at_form (s name act amt reason : string) :
  decision_at s = Some (name, act, amt, reason) ->
  agent_form name /\ all_chars is_digit amt = true /\ all_chars is_word act = true.
Proof.
  unfold decision_at.
  destruct (strip_prefix "[Agent" s) as [r1|]; simpl; [|discriminate].
  destruct (plus is_digit r1) as [[ds r2]|] eqn:Hds; simpl; [|discriminate].
  destruct (strip_prefix _ r2) as [r3|]; simpl; [|discriminate].
  destruct (plus is_word r3) as [[a r4]|] eqn:Hact; simpl; [|discriminate].
  destruct (strip_prefix ", " r4) as [r5|]; simpl; [|discriminate].
  destruct (plus is_digit r5) as [[m r6]|] eqn:Hamt; simpl; [|discriminate].
  destruct (strip_prefix ", " r6) as [r7|]; simpl; [|discriminate].
  intros [= <- <- <- <-].
  apply plus_spec in Hds as (Hne & _ & Hall & _).
  apply plus_spec in Hact as (_ & _ & Hact & _).
  apply plus_spec in Hamt as (_ & _ & Hamt & _).
  split; [by exists ds | done].
Qed.

Lemma prompt_match_form (line name : string) :
  prompt_match line = Some name -> agent_form name.
Proof.
  intros H. apply search_Some in H as (pre & suf & _ & H).
  by eapply prompt_at_form.
Qed.


End Matching.

(** ** What the cache and the rows hold *)

Section Invariant.

Lemma append_assoc (a b c : string) : (a +:+ b) +:+ c = a +:+ (b +:+ c).
Proof. induction a as [|x a IH]; simpl; [done | by rewrite IH]. Qed.

(** The text that [read_block] returns extends the text it was given. *)
Lemma read_block_extends (rest : list string) :
  forall (i0 : nat) (js : string) (lv : Z) (i' : nat) (js' : string) (lv' : Z),
    read_block rest i0 js lv = (i', js', lv') ->
    exists more : string, js' = js +:+ more.
Proof.
  induction rest as [|json_line rest IH]; intros i0 js lv i' js' lv' H; simpl in H.
  - injection H as _ <- _. exists EmptyString.
    clear. induction js as [|c js IH]; simpl; [done | by rewrite <- IH].
  - destruct (0 <? count "}" json_line).
    + destruct (lv - count "}" json_line =? 0); [injection H as _ <- _; eauto|].
      destruct (lv - count "}" json_line <? 0); [injection H as _ <- _; eauto|].
      apply IH in H as [more ->]. rewrite append_assoc. eauto.
    + destruct (contains "{" json_line);
        apply IH in H as [more ->]; rewrite append_assoc; eauto.
Qed.

(** A text that opens with a brace parses to an object or not at all. *)
Lemma parse_value_object (fuel : nat) (t : string) (v : value) (r : string) :
  parse_value fuel (String "{" t) = Some (v, r) -> exists kv, v = JObject kv.
Proof.
  destruct fuel as [|fuel]; [discriminate|]. simpl.
  destruct (skip_ws t) as [|d r0]; [discriminate|].
  destruct (code d =? 125)%nat.
  - intros [= <- _]. by exists [].
  - destruct (parse_members fuel [] (String d r0)) as [[kv rest]|]; simpl; [|discriminate].
    intros [= <- _]. by exists kv.
Qed.

Lemma loads_object (t : string) (v : value) :
  loads (String "{" t) = Some v -> exists kv, v = JObject kv.
Proof.
  unfold loads. change (skip_ws (String "{" t)) with (String "{" t).
  destruct (parse_value _ _) as [[v' r]|] eqn:Hp; simpl; [|discriminate].
  destruct (skip_ws r); [|discriminate]. intros [= <-].
  by eapply parse_value_object.
Qed.

(** A row that is built takes the decision as it is and its other
    fields from the prompt, which is an object. *)
Lemma correlate_Ok (h : Z) (a act : string) (amt : Z) (rs : string)
    (pd : value) (r : ActionRecord) :
  correlate h a act amt rs pd = Ok r ->
  hand_id r = h /\ agent_name r = a /\ action r = act /\ amount r = amt /\
  reasoning r = rs /\ input_prompt_json r = pd /\
  exists kv, pd = JObject kv /\ row_fields r kv.
Proof.
  unfold correlate.
  destruct (py_get pd "community" _) as [community|] eqn:Hc; simpl; [|discriminate].
  destruct (py_len community) as [n|] eqn:Hn; simpl; [|discriminate].
  destruct (py_get pd "your_chips" _) as [chips|] eqn:Hchips; simpl; [|discriminate].
  destruct (py_get pd "your_cards" _) as [cards|] eqn:Hcards; simpl; [|discriminate].
  destruct (py_join ", " cards) as [cs|] eqn:Hcs; simpl; [|discriminate].
  destruct (py_join ", " community) as [ms|] eqn:Hms; simpl; [|discriminate].
  intros [= <-]. simpl. repeat (split; [done|]).
  destruct pd as [| | | | | |kv]; try discriminate.
  exists kv. split; [done|]. by exists community, cards, n.
Qed.

Lemma inv_init : inv init.
Proof.
  split; [|constructor]. intros a pd raw H. simpl in H.
  by rewrite lookup_empty in H.
Qed.

(** An iteration keeps the invariant. *)
Lemma body_inv (lines : list string) (st st' : state) :
  inv st -> body lines st = Ok st' -> inv st'.
Proof.
  intros [Hcache Hrows]. unfold body.
  destruct (lines !! i st) as [line|]; [|by intros [= <-]].
  destruct (hand_match line).
  { intros [= <-]. split; simpl; [|done].
    intros a pd raw H. by rewrite lookup_empty in H. }
  destruct (prompt_match line) as [agent|] eqn:Hprompt.
  { destruct (read_block _ _ _ _) as [[i' js] lv] eqn:Hrb.
    apply read_block_extends in Hrb as [more ->].
    destruct (negb (lv =? 0)); [by intros [= <-]|].
    destruct (loads _) as [pd|] eqn:Hloads; intros [= <-]; (split; simpl; [|done]).
    - intros a pd' raw. destruct (decide (agent = a)) as [<-|Hne].
      + rewrite lookup_insert_eq. intros [= <- <-].
        split; [by eapply prompt_match_form|]. split; [done|].
        exact (loads_object (String nl more) pd Hloads).
      + rewrite lookup_insert_ne by done. apply Hcache.
    - intros a pd' raw. destruct (decide (agent = a)) as [<-|Hne].
      + by rewrite lookup_delete_eq.
      + rewrite lookup_delete_ne by done. apply Hcache. }
  destruct (decision_match line) as [[[[agent act] amt] reason]|] eqn:Hdec;
    [|by intros [= <-]].
  destruct (agent_prompts st !! agent) as [[pd ps]|] eqn:Hlook; [|by intros [= <-]].
  destruct (correlate _ _ _ _ _ _) as [row|] eqn:Hrow; simpl; [|discriminate].
  intros [= <-]. split; simpl; [done|].
  apply Forall_app. split; [done|]. constructor; [|constructor].
  apply correlate_Ok in Hrow as (_ & Ha & Hact & _ & _ & Hpd & kv & -> & Hfields).
  apply search_Some in Hdec as (pre & suf & _ & Hdec).
  apply decision_at_form in Hdec as (Hform & _ & Hword).
  split; [by rewrite Ha|]. split; [by rewrite Hact|]. by exists kv.
Qed.

Lemma scan_inv (lines : list string) (fuel : nat) :
  forall st st' : state, inv st -> scan fuel lines st = Ok st' -> inv st'.
Proof.
  induction fuel as [|fuel IH]; intros st st' Hinv; simpl.
  - destruct (i st <? List.length lines)%nat; by intros [= <-].
  - destruct (i st <? List.length lines)%nat; [|by intros [= <-]].
    destruct (body lines st) as [st1|] eqn:Hb; simpl; [|discriminate].
    apply IH. by eapply body_inv.
Qed.

(** Every row of the result is well formed. *)
Lemma rows_ok (lines : list string) (r : ActionRecord) :
  r ∈ rows_of (load_log_data lines) -> row_ok r.
Proof.
  unfold load_log_data, final_state.
  destruct (scan _ lines init) as [st|] eqn:Hscan; simpl.
  - intros Hr. apply scan_inv in Hscan as [_ Hrows]; [|apply inv_init].
    rewrite Forall_forall in Hrows. by apply Hrows.
  - intros Hr. by apply elem_of_nil in Hr.
Qed.

End Invariant.

(** ** The fuel of the parser *)

Section Fuel.

Lemma length_append (a b : string) :
  String.length (a +:+ b) = (String.length a + String.length b)%nat.
Proof. induction a as [|c a IH]; simpl; [done | by rewrite IH]. Qed.

Lemma skip_ws_length (s : string) :
  (String.length (skip_ws s) <= String.length s)%nat.
Proof. induction s as [|c s IH]; simpl; [done|]. destruct (is_ws c); simpl; lia. Qed.

Lemma strip_prefix_length (p s r : string) :
  strip_prefix p s = Some r ->
  String.length s = (String.length p + String.length r)%nat.
Proof. intros ->%strip_prefix_Some. apply length_append. Qed.

Lemma span_length (f : ascii -> bool) (s a b : string) :
  span f s = (a, b) -> (String.length b <= String.length s)%nat.
Proof. intros (-> & _)%span_spec. rewrite length_append. lia. Qed.

Lemma scanstring_length (t x r : string) :
  scanstring t = Some (x, r) -> (String.length r < String.length t)%nat.
Proof.
  revert x r. induction t as [t IH] using (well_founded_induction
    (well_founded_ltof _ String.length)). unfold ltof in IH.
  intros x r. destruct t as [|c t]; [discriminate|]. simpl.
  destruct (code c =? 34)%nat; [intros [= _ <-]; lia|].
  destruct (code c =? 92)%nat.
  - destruct t as [|e t']; [discriminate|].
    destruct (code e =? 117)%nat.
    + destruct t' as [|h1 [|h2 [|h3 [|h4 r0]]]]; try discriminate.
      destruct (hex4 h1 h2 h3 h4); simpl; [|discriminate].
      destruct (scanstring r0) as [[body rest]|] eqn:Hr; simpl; [|discriminate].
      intros [= _ <-]. apply IH in Hr; simpl in *; lia.
    + destruct (simple_escape e); simpl; [|discriminate].
      destruct (scanstring t') as [[body rest]|] eqn:Hr; simpl; [|discriminate].
      intros [= _ <-]. apply IH in Hr; simpl in *; lia.
  - destruct (code c <? 32)%nat; [discriminate|].
    destruct (scanstring t) as [[body rest]|] eqn:Hr; simpl; [|discriminate].
    intros [= _ <-]. apply IH in Hr; simpl in *; lia.
Qed.

Lemma scan_number_length (s : string) (v : value) (r : string) :
  scan_number s = Some (v, r) -> (String.length r < String.length s)%nat.
Proof.
  unfold scan_number.
  set (sign := match s with
               | String c t => if (code c =? 45)%nat then (true, t) else (false, s)
               | EmptyString => (false, s)
               end).
  assert (Hbody : (String.length sign.2 <= String.length s)%nat).
  { subst sign. destruct s as [|c t]; simpl; [lia|].
    destruct (code c =? 45)%nat; simpl; lia. }
  destruct sign as [neg body]. simpl in Hbody.
  destruct (scan_int body) as [[ip r1]|] eqn:Hint; simpl; [|discriminate].
  assert (H1 : (String.length r1 < String.length body)%nat).
  { unfold scan_int in Hint. destruct body as [|c t]; [discriminate|].
    destruct (code c =? 48)%nat; [injection Hint as _ <-; simpl; lia|].
    destruct (is_digit19 c); [|discriminate].
    destruct (span is_digit t) as [ds rest] eqn:Hs. injection Hint as _ <-.
    apply span_length in Hs. simpl. lia. }
  destruct (scan_frac r1) as [frac r2] eqn:Hfrac.
  assert (H2 : (String.length r2 <= String.length r1)%nat).
  { unfold scan_frac in Hfrac. destruct r1 as [|c t]; [by injection Hfrac as _ <-|].
    destruct (code c =? 46)%nat; [|by injection Hfrac as _ <-].
    destruct (span is_digit t) as [ds rest] eqn:Hs. apply span_length in Hs.
    destruct ds; injection Hfrac as _ <-; simpl; lia. }
  destruct (scan_exp r2) as [ex r3] eqn:Hexp.
  assert (H3 : (String.length r3 <= String.length r2)%nat).
  { unfold scan_exp in Hexp. destruct r2 as [|c t]; [by injection Hexp as _ <-|].
    destruct ((code c =? 101) || (code c =? 69))%nat; [|by injection Hexp as _ <-].
    set (sg := match t with
               | String g u =>
                   if ((code g =? 43) || (code g =? 45))%nat then (String g "", u)
                   else ("", t)
               | EmptyString => ("", t)
               end) in Hexp.
    assert (Hsg : (String.length sg.2 <= String.length t)%nat).
    { subst sg. destruct t as [|g u]; simpl; [lia|].
      destruct ((code g =? 43) || (code g =? 45))%nat; simpl; lia. }
    destruct sg as [sgn t']. simpl in Hsg.
    destruct (span is_digit t') as [ds rest] eqn:Hs. apply span_length in Hs.
    destruct ds; injection Hexp as _ <-; simpl; lia. }
  destruct frac, ex; intros [= _ <-]; lia.
Qed.

Lemma scan_atom_length (s : string) (v : value) (r : string) :
  scan_atom s = Some (v, r) -> (String.length r < String.length s)%nat.
Proof.
  unfold scan_atom.
  destruct (strip_prefix "null" s) eqn:H1;
    [intros [= _ <-]; apply strip_prefix_length in H1; simpl in H1; lia|].
  destruct (strip_prefix "true" s) eqn:H2;
    [intros [= _ <-]; apply strip_prefix_length in H2; simpl in H2; lia|].
  destruct (strip_prefix "false" s) eqn:H3;
    [intros [= _ <-]; apply strip_prefix_length in H3; simpl in H3; lia|].
  destruct (scan_number s) as [[v' r']|] eqn:H4;
    [intros [= _ <-]; by apply scan_number_length in H4|].
  destruct (strip_prefix "NaN" s) eqn:H5;
    [intros [= _ <-]; apply strip_prefix_length in H5; simpl in H5; lia|].
  destruct (strip_prefix "Infinity" s) eqn:H6;
    [intros [= _ <-]; apply strip_prefix_length in H6; simpl in H6; lia|].
  destruct (strip_prefix "-Infinity" s) eqn:H7;
    [intros [= _ <-]; apply strip_prefix_length in H7; simpl in H7; lia|].
  discriminate.
Qed.


Lemma skip_ws_cons (s r : string) (d : ascii) :
  skip_ws s = String d r -> (String.length r < String.length s)%nat.
Proof. intros H. pose proof (skip_ws_length s) as Hl. rewrite H in Hl. simpl in Hl. lia. Qed.

(** A parse that succeeds has consumed text, and succeeds with the same
    result for any fuel above twice the length it consumed. *)
Lemma parse_fuel (f : nat) :
  (forall s v r,
     parse_value f s = Some (v, r) ->
     (String.length r < String.length s)%nat /\
     forall f', (2 * (String.length s - String.length r) <= f' + 1)%nat ->
                parse_value f' s = Some (v, r)) /\
  (forall acc s kv r,
     parse_members f acc s = Some (kv, r) ->
     (String.length r < String.length s)%nat /\
     forall f', (2 * (String.length s - String.length r) <= f')%nat ->
                parse_members f' acc s = Some (kv, r)) /\
  (forall acc s l r,
     parse_items f acc s = Some (l, r) ->
     (String.length r < String.length s)%nat /\
     forall f', (2 * (String.length s - String.length r) <= f')%nat ->
                parse_items f' acc s = Some (l, r)).
Proof.
  induction f as [|f (IHv & IHm & IHi)]; [repeat split; discriminate|].
  split; [|split].
  - intros s v r. destruct s as [|c t]; [discriminate|]. simpl.
    destruct (code c =? 34)%nat eqn:Hq.
    { destruct (scanstring t) as [[str rest]|] eqn:Hs; simpl; [|discriminate].
      intros [= <- <-]. apply scanstring_length in Hs as Hl. split; [simpl; lia|].
      intros [|f'] Hf'; [simpl in Hf'; lia|]. simpl. by rewrite Hq, Hs. }
    destruct (code c =? 123)%nat eqn:Ho.
    { destruct (skip_ws t) as [|d r0] eqn:Hws; [discriminate|].
      apply skip_ws_cons in Hws as Hl.
      destruct (code d =? 125)%nat eqn:Hc.
      - intros [= <- <-]. split; [simpl; lia|].
        intros [|f'] Hf'; [simpl in Hf'; lia|]. simpl. by rewrite Hq, Ho, Hws, Hc.
      - destruct (parse_members f [] (String d r0)) as [[kv rest]|] eqn:Hm;
          simpl; [|discriminate].
        intros [= <- <-]. destruct (IHm _ _ _ _ Hm) as [Hlen Hfuel].
        simpl in Hlen. split; [simpl; lia|].
        intros [|f'] Hf'; [simpl in Hf'; lia|]. simpl. rewrite Hq, Ho, Hws, Hc.
        rewrite Hfuel; [done|]. simpl in *. lia. }
    destruct (code c =? 91)%nat eqn:Ha.
    { destruct (skip_ws t) as [|d r0] eqn:Hws; [discriminate|].
      apply skip_ws_cons in Hws as Hl.
      destruct (code d =? 93)%nat eqn:Hc.
      - intros [= <- <-]. split; [simpl; lia|].
        intros [|f'] Hf'; [simpl in Hf'; lia|]. simpl. by rewrite Hq, Ho, Ha, Hws, Hc.
      - destruct (parse_items f [] (String d r0)) as [[l rest]|] eqn:Hi;
          simpl; [|discriminate].
        intros [= <- <-]. destruct (IHi _ _ _ _ Hi) as [Hlen Hfuel].
        simpl in Hlen. split; [simpl; lia|].
        intros [|f'] Hf'; [simpl in Hf'; lia|]. simpl. rewrite Hq, Ho, Ha, Hws, Hc.
        rewrite Hfuel; [done|]. simpl in *. lia. }
    intros Hat. apply scan_atom_length in Hat as Hl. split; [done|].
    intros [|f'] Hf'; [simpl in *; lia|]. simpl. by rewrite Hq, Ho, Ha.
  - intros acc s kv r. destruct s as [|q t]; [discriminate|]. simpl.
    destruct (code q =? 34)%nat eqn:Hq; [|discriminate].
    destruct (scanstring t) as [[k rest]|] eqn:Hs; simpl; [|discriminate].
    apply scanstring_length in Hs as Hl1.
    destruct (skip_ws rest) as [|colon rest2] eqn:Hws1; [discriminate|].
    apply skip_ws_cons in Hws1 as Hl2.
    destruct (code colon =? 58)%nat eqn:Hcolon; [|discriminate].
    pose proof (skip_ws_length rest2) as Hl3.
    destruct (parse_value f (skip_ws rest2)) as [[v rest3]|] eqn:Hv; simpl; [|discriminate].
    destruct (IHv _ _ _ Hv) as [Hl4 Hfv].
    destruct (skip_ws rest3) as [|d rest4] eqn:Hws2; [discriminate|].
    apply skip_ws_cons in Hws2 as Hl5.
    pose proof (skip_ws_length rest4) as Hl6.
    destruct (code d =? 125)%nat eqn:Hclose.
    + intros [= <- <-]. split; [simpl; lia|].
      intros [|f'] Hf'; [simpl in Hf'; lia|]. simpl.
      rewrite Hq, Hs. simpl. rewrite Hws1, Hcolon, Hfv by (simpl in *; lia).
      simpl. by rewrite Hws2, Hclose.
    + destruct (code d =? 44)%nat eqn:Hcomma; [|discriminate].
      intros Hm. destruct (IHm _ _ _ _ Hm) as [Hl7 Hfm]. split; [simpl; lia|].
      intros [|f'] Hf'; [simpl in Hf'; lia|]. simpl.
      rewrite Hq, Hs. simpl. rewrite Hws1, Hcolon, Hfv by (simpl in *; lia).
      simpl. rewrite Hws2, Hclose, Hcomma. apply Hfm. simpl in *. lia.
  - intros acc s l r. simpl.
    destruct (parse_value f s) as [[v rest]|] eqn:Hv; simpl; [|discriminate].
    destruct (IHv _ _ _ Hv) as [Hl1 Hfv].
    destruct (skip_ws rest) as [|d rest2] eqn:Hws; [discriminate|].
    apply skip_ws_cons in Hws as Hl2.
    pose proof (skip_ws_length rest2) as Hl3.
    destruct (code d =? 93)%nat eqn:Hclose.
    + intros [= <- <-]. split; [lia|].
      intros [|f'] Hf'; [lia|]. simpl.
      rewrite Hfv by lia. simpl. by rewrite Hws, Hclose.
    + destruct (code d =? 44)%nat eqn:Hcomma; [|discriminate].
      intros Hi. destruct (IHi _ _ _ _ Hi) as [Hl4 Hfi]. split; [lia|].
      intros [|f'] Hf'; [lia|]. simpl.
      rewrite Hfv by lia. simpl. rewrite Hws, Hclose, Hcomma. apply Hfi. lia.
Qed.

(** The fuel that [loads] gives to the parser is always enough: a text
    that parses with some fuel is loaded. *)
Lemma loads_fuel (f : nat) (s : string) (v : value) (r : string) :
  parse_value f (skip_ws s) = Some (v, r) ->
  skip_ws r = EmptyString ->
  loads s = Some v.
Proof.
  intros Hp Hr. unfold loads.
  destruct (proj1 (parse_fuel f) _ _ _ Hp) as [Hlen Hfuel].
  pose proof (skip_ws_length s) as Hs.
  rewrite Hfuel by lia. simpl. by rewrite Hr.
Qed.

End Fuel.

(** ** The worked example of the specification *)

(** C7: on the six lines of the example the engine emits exactly one
    record, with hand_id 3, agent_name Agent1, phase preflop, chips 980,
    hole cards [Ah, Kd], no community cards, action raise, amount 40 and
    reasoning [strong hand].  The same holds when the file does not end
    with a newline. *)
Theorem example_emits_one_record :
  load_log_data example_lines = Frame [example_row] /\
  load_log_data
    (readlines (lit "=== STARTING NEW HAND #3 ===\nLLM Prompt for Agent1: {\n'your_chips': 980,\n'your_cards': ['Ah','Kd'],\n'community': []}\n[Agent1] Successfully parsed decision: raise, 40, strong hand"))
  = Frame [example_row].
Proof. split; vm_compute; reflexivity. Qed.

(** ** Determinism *)



(** ** The phase of a row *)

(** The five labels and the counts that give them. *)
Lemma derive_phase_cases (n : nat) :
  derive_phase n ∈ ["preflop"; "flop"; "turn"; "river"; "unknown"] /\
  (derive_phase n = "preflop" <-> n = 0%nat) /\
  (derive_phase n = "flop" <-> n = 3%nat) /\
  (derive_phase n = "turn" <-> n = 4%nat) /\
  (derive_phase n = "river" <-> n = 5%nat) /\
  (derive_phase n = "unknown" <-> n <> 0%nat /\ n <> 3%nat /\ n <> 4%nat /\ n <> 5%nat).
Proof.
  do 6 (destruct n as [|n]; [simpl; split; [set_solver|];
        repeat split; intros; first [discriminate | lia | done]|]).
  simpl; split; [set_solver|]; repeat split; intros; first [discriminate | lia | done].
Qed.



(** ** Prompts that lack a key *)

Lemma strings_of_map (l : list string) : strings_of (List.map JString l) = Some l.
Proof. induction l as [|s l IH]; simpl; [done | by rewrite IH]. Qed.

(** A row is built without an exception when the two lists are absent or
    lists of strings. *)
Lemma correlate_total (h : Z) (a act : string) (amt : Z) (rs : string)
    (kv : list (string * value)) :
  absent_or_strings "your_cards" kv ->
  absent_or_strings "community" kv ->
  exists row, correlate h a act amt rs (JObject kv) = Ok row.
Proof.
  intros Hcards Hcomm. unfold correlate, py_get.
  destruct Hcomm as [-> | [lc ->]], Hcards as [-> | [lh ->]]; simpl;
    rewrite ?strings_of_map; simpl; rewrite ?strings_of_map; simpl; eauto.
Qed.

(** C10: a prompt that lacks one of the three keys gives defaults and no
    failure.  In every row of the result the prompt is an object, and when
    it has no [your_chips] the chips are 0, when it has no [your_cards] the
    hole cards are the empty string, when it has no [community] the
    community cards are the empty string and the phase is preflop.  Building
    the row raises nothing as long as each of [your_cards] and [community]
    is absent or a list of strings. *)
Theorem missing_keys_give_defaults :
  (forall (lines : list string) (r : ActionRecord),
     r ∈ rows_of (load_log_data lines) ->
     exists kv,
       input_prompt_json r = JObject kv /\
       (dict_get "your_chips" kv = None -> your_chips_before r = JInt 0) /\
       (dict_get "your_cards" kv = None -> your_cards r = "") /\
       (dict_get "community" kv = None ->
          community_cards r = "" /\ phase r = "preflop")) /\
  (forall (h : Z) (a act : string) (amt : Z) (rs : string) (kv : list (string * value)),
     absent_or_strings "your_cards" kv ->
     absent_or_strings "community" kv ->
     exists row, correlate h a act amt rs (JObject kv) = Ok row).
Proof.
  split; [|apply correlate_total].
  intros lines r Hr. apply rows_ok in Hr as (_ & _ & kv & Hpd & Hfields).
  destruct Hfields as (community & cards & n & Hget & Hlen & Hphase & Hjoin
                       & Hchips & Hcards & Hcs).
  exists kv. split; [done|]. unfold py_get in *.
  split; [|split].
  - intros Hnone. rewrite Hnone in Hchips. by injection Hchips as <-.
  - intros Hnone. rewrite Hnone in Hcards. injection Hcards as <-.
    simpl in Hcs. by injection Hcs as <-.
  - intros Hnone. rewrite Hnone in Hget. injection Hget as <-.
    simpl in Hjoin, Hlen. injection Hjoin as <-. injection Hlen as <-.
    by rewrite Hphase.
Qed.

(** The prompt of [bare_lines] has none of the three keys. *)
Lemma missing_keys_give_defaults_example :
  load_log_data bare_lines = Frame [bare_row] /\
  (exists kv,
     input_prompt_json bare_row = JObject kv /\
     (dict_get "your_chips" kv = None -> your_chips_before bare_row = JInt 0) /\
     (dict_get "your_cards" kv = None -> your_cards bare_row = "") /\
     (dict_get "community" kv = None ->
        community_cards bare_row = "" /\ phase bare_row = "preflop")) /\
  (exists row, correlate 7 "Agent2" "fold" 0 "nothing to go on" (JObject []) = Ok row).
Proof.
  assert (H : load_log_data bare_lines = Frame [bare_row]) by (vm_compute; reflexivity).
  split; [exact H|]. split.
  - apply (proj1 missing_keys_give_defaults bare_lines bare_row).
    rewrite H. simpl. apply list_elem_of_here.
  - apply (proj2 missing_keys_give_defaults); left; reflexivity.
Defined.

(** ** A prompt replaces the cached prompt of its agent *)



(** ** Hand markers and orphan decisions *)

(** A hand marker sets the hand and empties the cache. *)
Lemma body_hand_marker (lines : list string) (st : state) (line n : string) :
  lines !! i st = Some line ->
  hand_match line = Some n ->
  body lines st =
    Ok {| i := S (i st); current_hand := int_of n; agent_prompts := ∅; data := data st |}.
Proof. intros Hline Hhand. unfold body. by rewrite Hline, Hhand. Qed.






(** ** How the inner loop is left *)

Lemma count_nonneg (c : ascii) (s : string) : 0 <= count c s.
Proof. induction s as [|d s IH]; simpl; [lia | destruct (Ascii.eqb d c); lia]. Qed.

(** The loop is left with a positive level exactly when the input ended. *)
Lemma read_block_exhausted (rest : list string) :
  forall (i0 : nat) (js : string) (lv : Z) (i' : nat) (js' : string) (lv' : Z),
    0 < lv ->
    read_block rest i0 js lv = (i', js', lv') ->
    (0 < lv' <-> i' = (i0 + List.length rest)%nat).
Proof.
  induction rest as [|json_line rest IH]; intros i0 js lv i' js' lv' Hlv H;
    pose proof (read_block_cursor _ _ _ _ _ _ _ H) as Hcur; simpl in H, Hcur.
  - injection H as <- _ <-. simpl. split; [lia | done].
  - pose proof (count_nonneg "{" json_line) as Hopen.
    destruct (0 <? count "}" json_line).
    + destruct (lv - count "}" json_line =? 0) eqn:H0.
      { injection H as <- _ <-. apply Z.eqb_eq in H0. simpl. split; lia. }
      destruct (lv - count "}" json_line <? 0) eqn:Hneg.
      { injection H as <- _ <-. apply Z.ltb_lt in Hneg. simpl. split; lia. }
      apply Z.eqb_neq in H0. apply Z.ltb_ge in Hneg.
      apply IH in H; [|lia]. simpl. rewrite H. lia.
    + destruct (contains "{" json_line); (apply IH in H; [|lia]); simpl; rewrite H; lia.
Qed.


(** A capture that is left with a level other than zero is abandoned: the
    parser is not called and only the cursor changes. *)
Lemma body_abandons (lines : list string) (st : state) (line agent json_str : string)
    (i' : nat) (lv : Z) :
  lines !! i st = Some line ->
  hand_match line = None ->
  prompt_match line = Some agent ->
  read_block (drop (S (i st)) lines) (S (i st)) ("{" +:+ NL) 1 = (i', json_str, lv) ->
  lv <> 0 ->
  body lines st =
    Ok {| i := S i'; current_hand := current_hand st;
          agent_prompts := agent_prompts st; data := data st |}.
Proof.
  intros Hline Hhand Hprompt Hblock Hlv. unfold body.
  rewrite Hline, Hhand, Hprompt, Hblock.
  by destruct (Z.eqb_spec lv 0).
Qed.

(** ** A block whose braces do not match *)




(** ** A block that the input cuts short *)

(** C3, as stated, fails on [truncated_lines]: the second block of Agent1
    is incomplete, and when the scan ends the cache still holds the entry
    that the first block gave to Agent1. *)
Lemma truncated_keeps_entry :
  scan 2 truncated_lines init = Ok mismatch_state_3 /\
  read_block (drop 4 truncated_lines) 4 (lit "{\n") 1
    = (5%nat, lit "{\n'your_chips': 50,\n", 1) /\
  final_state truncated_lines =
    Ok {| i := 6; current_hand := 3;
          agent_prompts := {[ "Agent1" := first_prompt ]}; data := [] |} /\
  (st ← final_state truncated_lines; Ok (agent_prompts st !! "Agent1"))
    = Ok (Some first_prompt).
Proof. repeat split; vm_compute; reflexivity. Qed.

(** C3, amended: when the input ends before the level is back at 0, the
    level is still positive, the parser is not called, the hand, the cache
    and the rows are left as they were (an entry that the agent already
    had stays), the cursor is past the last line and the scan ends with the
    rows it had. *)
Theorem incomplete_block_abandoned (lines : list string) (st : state)
    (line agent json_str : string) (i' : nat) (lv : Z) :
  lines !! i st = Some line ->
  hand_match line = None ->
  prompt_match line = Some agent ->
  read_block (drop (S (i st)) lines) (S (i st)) ("{" +:+ NL) 1 = (i', json_str, lv) ->
  i' = List.length lines ->
  0 < lv /\
  body lines st =
    Ok {| i := S (List.length lines); current_hand := current_hand st;
          agent_prompts := agent_prompts st; data := data st |} /\
  exec lines st (Frame (data st)).
Proof.
  intros Hline Hhand Hprompt Hblock ->.
  pose proof (lookup_lt_Some _ _ _ Hline) as Hlt.
  assert (Hlv : 0 < lv).
  { apply (read_block_exhausted _ _ _ _ _ _ _ Z.lt_0_1 Hblock).
    rewrite length_drop. lia. }
  assert (Hbody : body lines st =
    Ok {| i := S (List.length lines); current_hand := current_hand st;
          agent_prompts := agent_prompts st; data := data st |}).
  { eapply body_abandons; try done. lia. }
  split; [done|]. split; [done|].
  eapply exec_iter; [done | exact Hbody |].
  apply (exec_done lines (mkState _ _ _ _)). simpl. lia.
Qed.

(** The second block of [truncated_lines]. *)
Lemma incomplete_block_abandoned_example :
  0 < 1 /\
  body truncated_lines mismatch_state_3 =
    Ok {| i := 6; current_hand := 3;
          agent_prompts := agent_prompts mismatch_state_3; data := [] |} /\
  exec truncated_lines mismatch_state_3 (Frame []).
Proof.
  apply (incomplete_block_abandoned truncated_lines mismatch_state_3
           (lit "LLM Prompt for Agent1: {\n") "Agent1"
           (lit "{\n'your_chips': 50,\n") 5 1);
    vm_compute; reflexivity.
Defined.

(** ** A nested object on one line *)

(** C1 (the code departs from it): on a line with a closing brace only
    the closing braces are counted, whatever opening braces the line has.
    On [players_lines] the sixth line takes the level from 2 to 1 and its
    opening brace is not counted, so the level reaches 0 on the eighth
    line: the text is cut inside the object, it does not parse although the
    whole object does, and the decision of Agent1 gives no row.  On
    [nested_lines] the level reaches 0 on the line of the nested object,
    with the same effect. *)
Theorem nested_object_cuts_block :
  (forall json_line rest i0 js lv,
     0 < count "}" json_line ->
     0 < lv - count "}" json_line ->
     read_block (json_line :: rest) i0 js lv =
       read_block rest (S i0) (js +:+ json_line) (lv - count "}" json_line)) /\
  (read_block (drop 2 players_lines) 2 (lit "{\n") 1 = (7%nat, players_cut, 0) /\
   loads players_cut = None /\
   loads players_text =
     Some (JObject [ ("your_chips", JInt 980);
                     ("players", JArray [ JObject [("name", JString "Agent1")];
                                          JObject [("name", JString "Agent2")] ]);
                     ("community", JArray []) ]) /\
   load_log_data players_lines = Frame []) /\
  (read_block (drop 2 nested_lines) 2 (lit "{\n") 1
     = (3%nat, lit "{\n'your_chips': 980,\n'pot': {'main': 120}", 0) /\
   loads (lit "{\n'your_chips': 980,\n'pot': {'main': 120}") = None /\
   loads nested_text =
     Some (JObject [ ("your_chips", JInt 980);
                     ("pot", JObject [("main", JInt 120)]);
                     ("community", JArray []) ]) /\
   load_log_data nested_lines = Frame []).
Proof.
  split; [|repeat split; vm_compute; reflexivity].
  intros json_line rest i0 js lv Hclose Hpos. simpl.
  destruct (Z.ltb_spec 0 (count "}" json_line)); [|lia].
  destruct (Z.eqb_spec (lv - count "}" json_line) 0); [lia|].
  destruct (Z.ltb_spec (lv - count "}" json_line) 0); [lia|]. reflexivity.
Qed.

(** ** Names that the patterns do not take *)

Section AgentNames.

#[local] Arguments strip_prefix : simpl never.




















End AgentNames.




(** ** The scan, line by line *)

Section Scan.
Variable lines : list string.

Lemma body_step (st st' : state) :
  (i st < List.length lines)%nat ->
  body lines st = Ok st' ->
  step lines st st'.
Proof.
  intros Hlt. unfold body.
  destruct (lookup_lt_is_Some_2 lines (i st) Hlt) as [line Hline]. rewrite Hline.
  destruct (hand_match line) as [n|] eqn:Hh.
  { intros [= <-]. by eapply step_hand. }
  destruct (prompt_match line) as [agent|] eqn:Hp.
  { destruct (read_block _ _ _ _) as [[i' js] lv] eqn:Hrb.
    destruct (Z.eqb_spec lv 0) as [->|Hne]; simpl.
    - destruct (loads js) as [pd|] eqn:Hl; intros [= <-];
        eapply step_prompt; eauto 10.
    - intros [= <-]. eapply step_prompt; eauto. }
  destruct (decision_match line) as [[[[agent act] amt] reason]|] eqn:Hd.
  - destruct (agent_prompts st !! agent) as [[pd raw]|] eqn:Hc.
    + destruct (correlate _ _ _ _ _ _) as [row|] eqn:Hrow; simpl; [|discriminate].
      intros [= <-]. by eapply step_row.
    + intros [= <-]. eapply step_skip; eauto 10.
  - intros [= <-]. eapply step_skip; eauto.
Qed.

(** A property that the initial state has and every iteration keeps
    holds whenever the scan stops. *)
Lemma scan_ind (P : state -> Prop) :
  P init ->
  (forall st st', P st -> step lines st st' -> P st') ->
  forall fuel st, scan fuel lines init = Ok st -> P st.
Proof.
  intros Hinit Hstep fuel. generalize init Hinit.
  induction fuel as [|fuel IH]; intros st0 H0 st; simpl.
  - destruct (i st0 <? List.length lines)%nat; by intros [= <-].
  - destruct (i st0 <? List.length lines)%nat eqn:Hi; [|by intros [= <-]].
    apply Nat.ltb_lt in Hi.
    destruct (body lines st0) as [st1|] eqn:Hb; simpl; [|discriminate].
    apply IH. eapply Hstep; [exact H0|]. by apply body_step.
Qed.



(** Only the row of a decision can raise. *)
Lemma body_raise (st : state) (e : exn) :
  body lines st = Raise e ->
  exists line agent act amt reason pd raw,
    lines !! i st = Some line /\
    decision_match line = Some (agent, act, amt, reason) /\
    agent_prompts st !! agent = Some (pd, raw) /\
    correlate (current_hand st) agent act (int_of amt) (strip reason) pd = Raise e.
Proof.
  unfold body. destruct (lines !! i st) as [line|]; [|discriminate].
  destruct (hand_match line); [discriminate|].
  destruct (prompt_match line).
  { destruct (read_block _ _ _ _) as [[i' js] lv].
    destruct (negb (lv =? 0)); [discriminate|]. destruct (loads js); discriminate. }
  destruct (decision_match line) as [[[[agent act] amt] reason]|] eqn:Hd; [|discriminate].
  destruct (agent_prompts st !! agent) as [[pd raw]|] eqn:Hc; [|discriminate].
  destruct (correlate _ _ _ _ _ _) as [row|e'] eqn:Hrow; simpl; [discriminate|].
  intros [= ->]. by exists line, agent, act, amt, reason, pd, raw.
Qed.

End Scan.

Section Rows.
Variable lines : list string.

#[local] Arguments strip_prefix : simpl never.

Lemma hand_at_digits (s n : string) :
  hand_at s = Some n -> all_chars is_digit n = true.
Proof.
  unfold hand_at.
  destruct (strip_prefix _ s) as [r1|]; simpl; [|discriminate].
  destruct (plus is_digit r1) as [[ds r2]|] eqn:Hds; simpl; [|discriminate].
  destruct (strip_prefix " ===" r2); simpl; [|discriminate].
  intros [= <-]. by apply plus_spec in Hds as (_ & _ & Hds & _).
Qed.

Lemma decision_match_digits (l a act amt reason : string) :
  decision_match l = Some (a, act, amt, reason) ->
  all_chars is_digit amt = true.
Proof.
  intros H. apply search_Some in H as (pre & suf & _ & H).
  by apply decision_at_form in H as (_ & H & _).
Qed.

(** [int] of a string of digits is not negative. *)
Lemma int_acc_nonneg (s : string) :
  forall acc, 0 <= acc -> all_chars is_digit s = true -> 0 <= int_acc acc s.
Proof.
  induction s as [|c s IH]; intros acc Hacc; simpl; [done|].
  intros [Hc Hs]%andb_true_iff. apply IH; [|done].
  unfold is_digit in Hc. apply andb_true_iff in Hc as [Hlo _].
  apply Nat.leb_le in Hlo. unfold digit_val. lia.
Qed.

Lemma int_of_nonneg (s : string) : all_chars is_digit s = true -> 0 <= int_of s.
Proof. by apply int_acc_nonneg. Qed.

(** The rows stem from decision lines above the cursor, in their order. *)
Lemma scan_rows_stem (fuel : nat) (st : state) :
  scan fuel lines init = Ok st ->
  exists js : list nat,
    Forall2 (stems_from lines) js (data st) /\
    StronglySorted lt js /\
    Forall (fun j => (j < i st)%nat) js.
Proof.
  apply (scan_ind lines (fun st => exists js : list nat,
    Forall2 (stems_from lines) js (data st) /\ StronglySorted lt js /\
    Forall (fun j => (j < i st)%nat) js)).
  { exists []. repeat constructor. }
  intros st0 st1 (js & Hstem & Hsorted & Hbelow) Hstep.
  destruct Hstep as [st0 line n Hl Hh
                    | st0 line agent i' json lv cache Hl Hh Hp Hrb Hcache
                    | st0 line agent act amt reason pd raw row Hl Hh Hp Hd Hc Hrow
                    | st0 line Hl Hh Hp Hd]; simpl.
  - exists js. repeat split; try done. eapply Forall_impl; [done|]. simpl. lia.
  - exists js. repeat split; try done. apply read_block_cursor in Hrb.
    eapply Forall_impl; [done|]. simpl. lia.
  - exists (js ++ [i st0])%list. split; [|split].
    + apply Forall2_app; [done|]. constructor; [|constructor].
      apply correlate_Ok in Hrow as (_ & Ha & Hact & Hamt & Hreason & _).
      exists line, amt, reason. rewrite Ha, Hact.
      repeat split; try done. by eapply decision_match_digits.
    + apply StronglySorted_app. repeat split; try done; [|repeat constructor].
      intros x1 x2 Hx1 ->%list_elem_of_singleton.
      rewrite Forall_forall in Hbelow. by apply Hbelow.
    + apply Forall_app. split; [|repeat constructor; lia].
      eapply Forall_impl; [done|]. simpl. lia.
  - exists js. repeat split; try done. eapply Forall_impl; [done|]. simpl. lia.
Qed.

(** The hand of the state and of every row is a hand of the log. *)
Lemma scan_hands (fuel : nat) (st : state) :
  scan fuel lines init = Ok st ->
  hand_of_log lines (current_hand st) /\
  Forall (fun r => hand_of_log lines (hand_id r)) (data st).
Proof.
  apply (scan_ind lines (fun st => hand_of_log lines (current_hand st) /\
    Forall (fun r => hand_of_log lines (hand_id r)) (data st))).
  { split; [by left | constructor]. }
  intros st0 st1 [Hcur Hrows] Hstep.
  destruct Hstep as [st0 line n Hl Hh
                    | st0 line agent i' json lv cache Hl Hh Hp Hrb Hcache
                    | st0 line agent act amt reason pd raw row Hl Hh Hp Hd Hc Hrow
                    | st0 line Hl Hh Hp Hd]; simpl; try done.
  - split; [|done]. right. exists line, n.
    split; [by eapply list_elem_of_lookup_2|]. split; [done|]. split; [|done].
    apply search_Some in Hh as (pre & suf & _ & Hh). by eapply hand_at_digits.
  - split; [done|]. apply Forall_app. split; [done|]. constructor; [|constructor].
    apply correlate_Ok in Hrow as (-> & _). done.
Qed.

End Rows.

Section Trim.

#[local] Arguments strip_prefix : simpl never.









End Trim.




(** X2: the hand of a row is 0, the initial value, or the number of a
    hand marker of the log; it is never negative; and in a log without a
    marker every row has hand 0. *)
Theorem hand_ids_from_markers (lines : list string) (r : ActionRecord) :
  r ∈ rows_of (load_log_data lines) ->
  hand_of_log lines (hand_id r) /\
  0 <= hand_id r /\
  ((forall l, l ∈ lines -> hand_match l = None) -> hand_id r = 0).
Proof.
  unfold load_log_data, final_state.
  destruct (scan _ lines init) as [st|e] eqn:Hscan; simpl;
    [|by intros ?%elem_of_nil].
  intros Hr. apply scan_hands in Hscan as [_ Hrows].
  rewrite Forall_forall in Hrows. specialize (Hrows r Hr).
  split; [done|]. split.
  - destruct Hrows as [->|(l & n & _ & _ & Hn & ->)]; [done|]. by apply int_of_nonneg.
  - intros Hnone. destruct Hrows as [->|(l & n & Hl & Hn & _)]; [done|].
    rewrite (Hnone l Hl) in Hn. discriminate.
Qed.

(** The row of the example is of hand 3, the number of its marker. *)
Lemma hand_ids_from_markers_example :
  example_row ∈ rows_of (load_log_data example_lines) /\
  hand_of_log example_lines (hand_id example_row) /\
  0 <= hand_id example_row /\
  ((forall l, l ∈ example_lines -> hand_match l = None) -> hand_id example_row = 0).
Proof.
  assert (H : example_row ∈ rows_of (load_log_data example_lines)).
  { vm_compute load_log_data. simpl. apply list_elem_of_here. }
  split; [exact H|]. exact (hand_ids_from_markers example_lines example_row H).
Defined.


(** X3: the rows are decisions of the log, in the order of the log: there
    are strictly increasing positions, one for each row, and the agent, the
    action, the amount and the trimmed reasoning of the row are what the
    decision pattern captures on the line at its position. *)
Theorem rows_follow_decisions (lines : list string) (rows : list ActionRecord) :
  load_log_data lines = Frame rows ->
  exists js : list nat,
    Forall2 (stems_from lines) js rows /\ StronglySorted lt js.
Proof.
  unfold load_log_data, final_state.
  destruct (scan _ lines init) as [st|e] eqn:Hscan; simpl; [|discriminate].
  intros [= <-]. apply scan_rows_stem in Hscan as (js & Hstem & Hsorted & _).
  by exists js.
Qed.

(** The row of the example stems from its sixth line. *)
Lemma rows_follow_decisions_example :
  load_log_data example_lines = Frame [example_row] /\
  exists js : list nat,
    Forall2 (stems_from example_lines) js [example_row] /\ StronglySorted lt js.
Proof.
  assert (H : load_log_data example_lines = Frame [example_row])
    by (vm_compute; reflexivity).
  split; [exact H|]. exact (rows_follow_decisions example_lines [example_row] H).
Defined.


Lemma rows_stem (lines : list string) (r : ActionRecord) :
  r ∈ rows_of (load_log_data lines) -> exists j, stems_from lines j r.
Proof.
  unfold load_log_data, final_state.
  destruct (scan _ lines init) as [st|e] eqn:Hscan; simpl;
    [|by intros ?%elem_of_nil].
  intros Hr. apply scan_rows_stem in Hscan as (js & Hstem & _).
  apply list_elem_of_lookup in Hr as [k Hk].
  destruct (Forall2_lookup_r _ _ _ _ _ Hstem Hk) as (j & _ & Hj). by exists j.
Qed.

(** X4: the amount of a row is never negative. *)
Theorem amounts_not_negative (lines : list string) (r : ActionRecord) :
  r ∈ rows_of (load_log_data lines) -> 0 <= amount r.
Proof.
  intros (j & l & amt & reason & _ & _ & Hdigits & -> & _)%rows_stem.
  by apply int_of_nonneg.
Qed.

(** The amount of the row of the example. *)
Lemma amounts_not_negative_example :
  example_row ∈ rows_of (load_log_data example_lines) /\ 0 <= amount example_row.
Proof.
  assert (H : example_row ∈ rows_of (load_log_data example_lines)).
  { vm_compute load_log_data. simpl. apply list_elem_of_here. }
  split; [exact H|]. exact (amounts_not_negative example_lines example_row H).
Defined.





Section Block.

Lemma append_nil_r (s : string) : s +:+ EmptyString = s.
Proof. induction s as [|c s IH]; simpl; [done | by rewrite IH]. Qed.

(** The text up to the last occurrence of a character. *)
Lemma upto_last_spec (c : ascii) (s : string) :
  contains c s = true ->
  exists pre tail : string,
    upto_last c s = pre +:+ String c EmptyString /\
    s = pre +:+ String c tail /\
    contains c tail = false.
Proof.
  induction s as [|d s IH]; simpl; [discriminate|].
  destruct (contains c s) eqn:Hs.
  - intros _. destruct (IH eq_refl) as (pre & tail & Hup & Hs' & Htail).
    exists (String d pre), tail. simpl. by rewrite Hup, <- Hs'.
  - rewrite orb_false_r. intros Hd. rewrite Hd.
    apply Ascii.eqb_eq in Hd as ->. by exists EmptyString, s.
Qed.

Lemma count_contains (c : ascii) (s : string) :
  contains c s = true <-> 0 < count c s.
Proof.
  induction s as [|d s IH]; simpl; [split; [discriminate | lia]|].
  pose proof (count_nonneg c s).
  destruct (Ascii.eqb d c); simpl; [split; [lia | done]|].
  rewrite IH. split; lia.
Qed.

(** The three ways in which the inner loop returns, with its text. *)
Lemma read_block_returns (rest : list string) :
  forall (i0 : nat) (js : string) (lv : Z) (i' : nat) (js' : string) (lv' : Z),
    0 < lv ->
    read_block rest i0 js lv = (i', js', lv') ->
    (0 < lv' /\ i' = (i0 + List.length rest)%nat /\ js' = js +:+ concat_lines rest) \/
    (lv' < 0 /\ (i' - i0 < List.length rest)%nat /\
     js' = js +:+ concat_lines (take (S (i' - i0)) rest)) \/
    (lv' = 0 /\
     exists pre tail : string,
       rest !! (i' - i0)%nat = Some (pre +:+ String "}" tail) /\
       contains "}" tail = false /\
       js' = js +:+ concat_lines (take (i' - i0) rest) +:+ pre +:+ "}").
Proof.
  induction rest as [|json_line rest IH]; intros i0 js lv i' js' lv' Hlv H;
    pose proof (read_block_cursor _ _ _ _ _ _ _ H) as Hcur; simpl in H.
  - injection H as <- <- <-. left. simpl. by rewrite append_nil_r, Nat.add_0_r.
  - pose proof (count_nonneg "{" json_line) as Hopen.
    assert (Hrec : forall lv1, 0 < lv1 ->
      read_block rest (S i0) (js +:+ json_line) lv1 = (i', js', lv') ->
      (0 < lv' /\ i' = (i0 + List.length (json_line :: rest))%nat /\
       js' = js +:+ concat_lines (json_line :: rest)) \/
      (lv' < 0 /\ (i' - i0 < List.length (json_line :: rest))%nat /\
       js' = js +:+ concat_lines (take (S (i' - i0)) (json_line :: rest))) \/
      (lv' = 0 /\
       exists pre tail : string,
         (json_line :: rest) !! (i' - i0)%nat = Some (pre +:+ String "}" tail) /\
         contains "}" tail = false /\
         js' = js +:+ concat_lines (take (i' - i0) (json_line :: rest)) +:+ pre +:+ "}")).
    { intros lv1 Hlv1 Hr. pose proof (read_block_cursor _ _ _ _ _ _ _ Hr) as Hc.
      replace (i' - i0)%nat with (S (i' - S i0)) by lia.
      destruct (IH _ _ _ _ _ _ Hlv1 Hr) as [(H1 & H2 & H3)|[(H1 & H2 & H3)|(H1 & pre & tail & H2 & H3 & H4)]].
      - left. split; [done|]. split; [simpl; lia|]. simpl.
        by rewrite H3, append_assoc.
      - right; left. split; [done|]. split; [simpl; lia|].
        rewrite H3. change (take (S (S (i' - S i0))) (json_line :: rest))
          with (json_line :: take (S (i' - S i0)) rest). simpl.
        by rewrite append_assoc.
      - right; right. split; [done|]. exists pre, tail.
        split; [done|]. split; [done|]. rewrite H4. simpl.
        by rewrite !append_assoc. }
    destruct (0 <? count "}" json_line) eqn:Hclose.
    + apply Z.ltb_lt in Hclose.
      destruct (lv - count "}" json_line =? 0) eqn:H0.
      { injection H as <- <- <-. apply Z.eqb_eq in H0. right; right.
        split; [done|]. rewrite Nat.sub_diag.
        destruct (upto_last_spec "}" json_line) as (pre & tail & Hup & Hline & Htail);
          [by apply count_contains|].
        exists pre, tail. split; [simpl; by rewrite <- Hline|]. split; [done|].
        simpl. by rewrite Hup. }
      destruct (lv - count "}" json_line <? 0) eqn:Hneg.
      { injection H as <- <- <-. apply Z.ltb_lt in Hneg. right; left.
        split; [done|]. rewrite Nat.sub_diag. split; [simpl; lia|].
        simpl. by rewrite append_nil_r. }
      apply Z.eqb_neq in H0. apply Z.ltb_ge in Hneg.
      eapply Hrec; [|exact H]. lia.
    + destruct (contains "{" json_line); (eapply Hrec; [|exact H]); lia.
Qed.

(** X7: the text that the inner loop returns.  When the input ends, it
    is the text it was given and all the lines; when the level drops below
    0, the lines up to and including the offending one; when the level
    reaches 0, the lines before the last one and the last one up to its
    last closing brace. *)
Theorem read_block_text (rest : list string) :
  forall (i0 : nat) (js : string) (lv : Z) (i' : nat) (js' : string) (lv' : Z),
    0 < lv ->
    read_block rest i0 js lv = (i', js', lv') ->
    (0 < lv' /\ i' = (i0 + List.length rest)%nat /\ js' = js +:+ concat_lines rest) \/
    (lv' < 0 /\ (i' - i0 < List.length rest)%nat /\
     js' = js +:+ concat_lines (take (S (i' - i0)) rest)) \/
    (lv' = 0 /\
     exists pre tail : string,
       rest !! (i' - i0)%nat = Some (pre +:+ String "}" tail) /\
       contains "}" tail = false /\
       js' = js +:+ concat_lines (take (i' - i0) rest) +:+ pre +:+ "}").
Proof.
  intros i0 js lv i' js' lv' Hlv H.
  exact (read_block_returns rest i0 js lv i' js' lv' Hlv H).
Qed.

(** The block of the example ends on its fifth line, at the brace. *)
Lemma read_block_text_example :
  read_block (drop 2 example_lines) 2 (lit "{\n") 1
    = (4%nat, lit "{\n'your_chips': 980,\n'your_cards': ['Ah','Kd'],\n'community': []}", 0) /\
  exists pre tail : string,
    drop 2 example_lines !! (4 - 2)%nat = Some (pre +:+ String "}" tail) /\
    contains "}" tail = false /\
    lit "{\n'your_chips': 980,\n'your_cards': ['Ah','Kd'],\n'community': []}"
      = lit "{\n" +:+ concat_lines (take (4 - 2) (drop 2 example_lines)) +:+ pre +:+ "}".
Proof.
  assert (H : read_block (drop 2 example_lines) 2 (lit "{\n") 1
    = (4%nat, lit "{\n'your_chips': 980,\n'your_cards': ['Ah','Kd'],\n'community': []}", 0))
    by (vm_compute; reflexivity).
  split; [exact H|].
  destruct (read_block_text _ _ _ _ _ _ _ Z.lt_0_1 H)
    as [(Hpos & _)|[(Hneg & _)|(_ & Hspan)]]; [lia | lia | exact Hspan].
Defined.


End Block.

Section Balance.

(** X8: when no line that the inner loop reads holds both an opening and
    a closing brace, the level it keeps is the balance of the braces: the
    level it returns is the balance after the line it stops at, the balance
    is positive after every line before that one, and it stops on a
    balance that is not positive or at the end of the input. *)
Theorem read_block_balances (rest : list string) :
  forall (i0 : nat) (js : string) (lv : Z) (i' : nat) (js' : string) (lv' : Z),
    0 < lv ->
    read_block rest i0 js lv = (i', js', lv') ->
    (forall l, l ∈ take (S (i' - i0)) rest -> count "{" l = 0 \/ count "}" l = 0) ->
    lv' = depth lv (take (S (i' - i0)) rest) /\
    (forall j, (j < i' - i0)%nat -> 0 < depth lv (take (S j) rest)) /\
    (lv' <= 0 \/ i' = (i0 + List.length rest)%nat).
Proof.
  induction rest as [|json_line rest IH]; intros i0 js lv i' js' lv' Hlv H Hmix;
    pose proof (read_block_cursor _ _ _ _ _ _ _ H) as Hcur;
    pose proof (read_block_exhausted _ _ _ _ _ _ _ Hlv H) as Hex; simpl in H.
  - injection H as <- <- <-. simpl. split; [done|]. split; [lia|]. right. lia.
  - pose proof (count_nonneg "{" json_line) as Hopen.
    pose proof (count_nonneg "}" json_line) as Hclose0.
    assert (Hhead : count "{" json_line = 0 \/ count "}" json_line = 0).
    { apply Hmix. simpl. apply list_elem_of_here. }
    cut (lv' = depth lv (take (S (i' - i0)) (json_line :: rest)) /\
         (forall j, (j < i' - i0)%nat ->
                    0 < depth lv (take (S j) (json_line :: rest)))).
    { intros [H1 H2]. split; [done|]. split; [done|]. lia. }
    assert (Hrec : forall lv1, lv1 = lv + net json_line -> 0 < lv1 ->
      read_block rest (S i0) (js +:+ json_line) lv1 = (i', js', lv') ->
      lv' = depth lv (take (S (i' - i0)) (json_line :: rest)) /\
      (forall j, (j < i' - i0)%nat ->
                 0 < depth lv (take (S j) (json_line :: rest)))).
    { intros lv1 -> Hlv1 Hr.
      pose proof (read_block_cursor _ _ _ _ _ _ _ Hr) as Hc.
      assert (Hk : (i' - i0)%nat = S (i' - S i0)) by lia.
      destruct (IH _ _ _ _ _ _ Hlv1 Hr) as (H1 & H2 & _).
      { intros l Hl. apply Hmix. rewrite Hk. simpl. by apply list_elem_of_further. }
      rewrite Hk. split; [exact H1|].
      intros [|j] Hj; simpl; [lia | apply H2; lia]. }
    unfold net in Hrec.
    destruct (0 <? count "}" json_line) eqn:Hclose.
    + apply Z.ltb_lt in Hclose.
      destruct (lv - count "}" json_line =? 0) eqn:H0.
      { injection H as <- <- <-. apply Z.eqb_eq in H0. rewrite Nat.sub_diag.
        simpl. unfold net. split; [lia | intros; lia]. }
      destruct (lv - count "}" json_line <? 0) eqn:Hneg.
      { injection H as <- <- <-. apply Z.ltb_lt in Hneg. rewrite Nat.sub_diag.
        simpl. unfold net. split; [lia | intros; lia]. }
      apply Z.eqb_neq in H0. apply Z.ltb_ge in Hneg.
      eapply Hrec; [| |exact H]; lia.
    + apply Z.ltb_ge in Hclose.
      destruct (contains "{" json_line) eqn:Hc; [eapply Hrec; [| |exact H]; lia|].
      assert (count "{" json_line = 0).
      { destruct (Z.ltb_spec 0 (count "{" json_line)) as [Hpos|]; [|lia].
        apply count_contains in Hpos. congruence. }
      eapply Hrec; [| |exact H]; lia.
Qed.

(** No line of the block of the example holds both kinds of braces. *)
Lemma read_block_balances_example :
  read_block (drop 2 example_lines) 2 (lit "{\n") 1
    = (4%nat, lit "{\n'your_chips': 980,\n'your_cards': ['Ah','Kd'],\n'community': []}", 0) /\
  0 = depth 1 (take (S (4 - 2)) (drop 2 example_lines)) /\
  (forall j, (j < 4 - 2)%nat -> 0 < depth 1 (take (S j) (drop 2 example_lines))) /\
  (0 <= 0 \/ 4%nat = (2 + List.length (drop 2 example_lines))%nat).
Proof.
  assert (H : read_block (drop 2 example_lines) 2 (lit "{\n") 1
    = (4%nat, lit "{\n'your_chips': 980,\n'your_cards': ['Ah','Kd'],\n'community': []}", 0))
    by (vm_compute; reflexivity).
  split; [exact H|].
  apply (read_block_balances _ _ _ _ _ _ _ Z.lt_0_1 H).
  intros l Hl.
  change (take (S (4 - 2)) (drop 2 example_lines))
    with [ lit "'your_chips': 980,\n"; lit "'your_cards': ['Ah','Kd'],\n";
           lit "'community': []}\n" ] in Hl.
  repeat (apply elem_of_cons in Hl as [->|Hl]; [left; vm_compute; reflexivity|]).
  by apply elem_of_nil in Hl.
Defined.


End Balance.

Section CacheEntries.
Variable lines : list string.

(** What the scan keeps in the cache. *)
Lemma scan_cache_blocks (fuel : nat) (st : state)
    (agent : string) (pd : value) (raw : string) :
  scan fuel lines init = Ok st ->
  agent_prompts st !! agent = Some (pd, raw) ->
  loads raw = Some pd /\ block_of lines agent raw.
Proof.
  intros Hscan. revert agent pd raw.
  apply (scan_ind lines (fun st => forall agent pd raw,
    agent_prompts st !! agent = Some (pd, raw) ->
    loads raw = Some pd /\ block_of lines agent raw)) with (fuel := fuel);
    [| |done].
  { intros agent pd raw H. simpl in H. by rewrite lookup_empty in H. }
  clear st Hscan. intros st0 st1 Hinv Hstep.
  destruct Hstep as [st0 line n Hl Hh
                    | st0 line a i' json lv cache Hl Hh Hp Hrb Hcache
                    | st0 line a act amt reason pd0 raw0 row Hl Hh Hp Hd Hc Hrow
                    | st0 line Hl Hh Hp Hd]; simpl; [|  |done|done].
  - intros agent pd raw H. by rewrite lookup_empty in H.
  - destruct Hcache as [[_ ->]|[(-> & pd0 & Hloads & ->)|(_ & _ & ->)]]; [done| |].
    + intros agent pd raw. destruct (decide (a = agent)) as [<-|Hne].
      * rewrite lookup_insert_eq. intros [= <- <-]. split; [done|].
        pose proof (read_block_cursor _ _ _ _ _ _ _ Hrb) as Hcur.
        destruct (read_block_returns _ _ _ _ _ _ _ Z.lt_0_1 Hrb)
          as [(Hpos & _)|[(Hneg & _)|(_ & pre & tail & Hlast & Htail & Hjs)]];
          [lia | lia |].
        exists (i st0), i', line, pre, tail.
        rewrite lookup_drop in Hlast.
        replace (S (i st0) + (i' - S (i st0)))%nat with i' in Hlast by lia.
        split; [done|]. split; [done|]. split; [lia|]. split; [done|].
        split; [done|]. rewrite Hjs. by rewrite !append_assoc.
      * rewrite lookup_insert_ne by done. apply Hinv.
    + intros agent pd raw. destruct (decide (a = agent)) as [<-|Hne].
      * by rewrite lookup_delete_eq.
      * rewrite lookup_delete_ne by done. apply Hinv.
Qed.

(** X6: at any point of the scan, the text kept with a cached prompt
    parses to the object kept with it, and it is the text of a block of
    the log that a prompt-start line of that agent opens. *)
Theorem cache_entries_are_blocks (fuel : nat) (st : state)
    (agent : string) (pd : value) (raw : string) :
  scan fuel lines init = Ok st ->
  agent_prompts st !! agent = Some (pd, raw) ->
  loads raw = Some pd /\ block_of lines agent raw.
Proof.
  intros Hscan Hentry.
  exact (scan_cache_blocks fuel st agent pd raw Hscan Hentry).
Qed.









End CacheEntries.

(** The entry of Agent1 at the second prompt of [twice_lines]. *)
Lemma cache_entries_are_blocks_example :
  scan 2 twice_lines init = Ok twice_state /\
  agent_prompts twice_state !! "Agent1"
    = Some (JObject [("your_chips", JInt 100)], lit "{\n'your_chips': 100\n}") /\
  loads (lit "{\n'your_chips': 100\n}") = Some (JObject [("your_chips", JInt 100)]) /\
  block_of twice_lines "Agent1" (lit "{\n'your_chips': 100\n}").
Proof.
  assert (H1 : scan 2 twice_lines init = Ok twice_state) by (vm_compute; reflexivity).
  assert (H2 : agent_prompts twice_state !! "Agent1"
    = Some (JObject [("your_chips", JInt 100)], lit "{\n'your_chips': 100\n}"))
    by (vm_compute; reflexivity).
  split; [exact H1|]. split; [exact H2|].
  exact (cache_entries_are_blocks twice_lines 2 twice_state "Agent1" _ _ H1 H2).
Defined.


(** X10: a block that is captured but does not parse evicts the entry of
    its agent and leaves the other agents, the hand and the rows alone; a
    decision of that agent on the line the cursor reaches gives no row. *)
Theorem parse_failure_evicts (lines : list string) (st : state)
    (line agent json_str : string) (i' : nat) :
  lines !! i st = Some line ->
  hand_match line = None ->
  prompt_match line = Some agent ->
  read_block (drop (S (i st)) lines) (S (i st)) ("{" +:+ NL) 1 = (i', json_str, 0) ->
  loads json_str = None ->
  exists st' : state,
    body lines st = Ok st' /\
    i st' = S i' /\ current_hand st' = current_hand st /\ data st' = data st /\
    agent_prompts st' !! agent = None /\
    (forall other, other <> agent ->
       agent_prompts st' !! other = agent_prompts st !! other) /\
    (forall line' act amt reason,
       lines !! i st' = Some line' ->
       hand_match line' = None ->
       prompt_match line' = None ->
       decision_match line' = Some (agent, act, amt, reason) ->
       body lines st' =
         Ok {| i := S (i st'); current_hand := current_hand st;
               agent_prompts := agent_prompts st'; data := data st |}).
Proof.
  intros Hline Hhand Hprompt Hblock Hloads.
  eexists. split.
  { unfold body. rewrite Hline, Hhand, Hprompt, Hblock. simpl. rewrite Hloads.
    reflexivity. }
  simpl. repeat (split; [done|]).
  split; [apply lookup_delete_eq|].
  split; [intros other Hne; by apply lookup_delete_ne|].
  intros line' act amt reason Hline' Hhand' Hprompt' Hdec.
  unfold body. simpl. rewrite Hline', Hhand', Hprompt', Hdec.
  by rewrite lookup_delete_eq.
Qed.

(** The second block of [garbled_lines] closes and does not parse. *)
Lemma parse_failure_evicts_example :
  load_log_data garbled_lines = Frame [] /\
  exists st' : state,
    body garbled_lines mismatch_state_3 = Ok st' /\
    i st' = 5%nat /\ current_hand st' = 3 /\ data st' = [] /\
    agent_prompts st' !! "Agent1" = None /\
    (forall other, other <> "Agent1" ->
       agent_prompts st' !! other = agent_prompts mismatch_state_3 !! other) /\
    (forall line' act amt reason,
       garbled_lines !! i st' = Some line' ->
       hand_match line' = None ->
       prompt_match line' = None ->
       decision_match line' = Some ("Agent1", act, amt, reason) ->
       body garbled_lines st' =
         Ok {| i := S (i st'); current_hand := 3;
               agent_prompts := agent_prompts st'; data := [] |}).
Proof.
  split; [vm_compute; reflexivity|].
  apply (parse_failure_evicts garbled_lines mismatch_state_3
           (lit "LLM Prompt for Agent1: {\n") "Agent1"
           (lit "{\nyour_chips = 50}") 4);
    vm_compute; reflexivity.
Defined.





Section Sorting.
Context {A : Type} (le : A -> A -> bool).
Hypothesis le_total : forall x y, le x y = true \/ le y x = true.
Hypothesis le_trans : forall x y z, le x y = true -> le y z = true -> le x z = true.

Lemma insert_sorted_perm (x : A) (l : list A) : insert_sorted le x l ≡ₚ x :: l.
Proof.
  induction l as [|y l IH]; simpl; [done|].
  destruct (le x y); [done|]. rewrite IH. apply perm_swap.
Qed.

Lemma sorted_perm (l : list A) : sorted le l ≡ₚ l.
Proof.
  induction l as [|x l IH]; simpl; [done|]. by rewrite insert_sorted_perm, IH.
Qed.

Lemma insert_sorted_ordered (x : A) (l : list A) :
  StronglySorted (fun a b => le a b = true) l ->
  StronglySorted (fun a b => le a b = true) (insert_sorted le x l).
Proof.
  induction l as [|y l IH]; simpl; [repeat constructor|].
  intros [Hy Hl]%StronglySorted_cons.
  destruct (le x y) eqn:Hxy.
  - apply StronglySorted_cons. split; [|by apply StronglySorted_cons].
    constructor; [done|]. eapply Forall_impl; [exact Hy|]. simpl. eauto.
  - apply StronglySorted_cons. split; [|by apply IH].
    rewrite insert_sorted_perm. constructor; [|done].
    destruct (le_total x y); congruence.
Qed.

Lemma sorted_ordered (l : list A) :
  StronglySorted (fun a b => le a b = true) (sorted le l).
Proof.
  induction l as [|x l IH]; simpl; [constructor | by apply insert_sorted_ordered].
Qed.

End Sorting.

Section Unique.
Context {A : Type} `{EqDecision A}.

Lemma elem_of_unique (x : A) (l : list A) : x ∈ unique l <-> x ∈ l.
Proof.
  induction l as [|y l IH]; simpl; [done|].
  rewrite !elem_of_cons, list_elem_of_filter, IH.
  destruct (decide (x = y)) as [->|Hne]; [split; auto|].
  split; [intros [|[_ ?]]; auto | intros [|]; auto].
Qed.

Lemma NoDup_unique (l : list A) : NoDup (unique l).
Proof.
  induction l as [|y l IH]; simpl; [constructor|].
  constructor; [|by apply NoDup_filter].
  rewrite list_elem_of_filter. by intros [? _].
Qed.

End Unique.

Section Filtering.
Context {A : Type}.

Lemma StronglySorted_filter (R : relation A) (P : A -> Prop)
    `{forall x, Decision (P x)} (l : list A) :
  StronglySorted R l -> StronglySorted R (filter P l).
Proof.
  induction l as [|x l IH]; [done|].
  intros [Hx Hl]%StronglySorted_cons. rewrite filter_cons.
  destruct (decide (P x)); [|by apply IH].
  apply StronglySorted_cons. split; [|by apply IH].
  rewrite Forall_forall in Hx. apply Forall_forall.
  intros y [_ Hy]%list_elem_of_filter. by apply Hx.
Qed.

Lemma filter_all (P : A -> Prop) `{forall x, Decision (P x)} (l : list A) :
  (forall x, x ∈ l -> P x) -> filter P l = l.
Proof.
  induction l as [|x l IH]; [done|]. intros Hall. rewrite filter_cons.
  destruct (decide (P x)) as [|Hn].
  - f_equal. apply IH. intros y Hy. apply Hall. by apply list_elem_of_further.
  - destruct Hn. apply Hall. apply list_elem_of_here.
Qed.

(** The rows of a frame with their indices, in ascending order. *)
Lemma imap_pair_sorted (l : list A) (k : nat) :
  StronglySorted (fun a b : nat * A => (fst a < fst b)%nat)
    (imap (fun j => pair (k + j)%nat) l) /\
  Forall (fun a : nat * A => (k <= fst a)%nat) (imap (fun j => pair (k + j)%nat) l).
Proof.
  revert k. induction l as [|x l IH]; intros k; [split; constructor|].
  rewrite imap_cons. destruct (IH (S k)) as [Hs Hf].
  assert (Heq : imap ((fun j => pair (k + j)%nat) ∘ S) l
                = imap (fun j => pair (S k + j)%nat) l).
  { apply imap_ext. intros j y _. simpl. f_equal. lia. }
  rewrite Heq. split.
  - apply StronglySorted_cons. split; [|done].
    eapply Forall_impl; [exact Hf|]. simpl. lia.
  - constructor; [simpl; lia|]. eapply Forall_impl; [exact Hf|]. simpl. lia.
Qed.

End Filtering.

Section DashboardProperties.

Lemma phase_key_le_total (p q : string) :
  (phase_key p <=? phase_key q)%nat = true \/ (phase_key q <=? phase_key p)%nat = true.
Proof. rewrite !Nat.leb_le. lia. Qed.

Lemma phase_key_le_trans (p q r : string) :
  (phase_key p <=? phase_key q)%nat = true ->
  (phase_key q <=? phase_key r)%nat = true ->
  (phase_key p <=? phase_key r)%nat = true.
Proof. rewrite !Nat.leb_le. lia. Qed.

(** The phases of the rows are among the five labels. *)
Lemma phase_of_rows (lines : list string) (p : string) :
  p ∈ phase <$> rows_of (load_log_data lines) ->
  p ∈ ["preflop"; "flop"; "turn"; "river"; "unknown"].
Proof.
  intros (r & -> & Hr)%list_elem_of_fmap.
  apply rows_ok in Hr as (_ & _ & kv & _ & community & cards & n & _ & _ & -> & _).
  apply derive_phase_cases.
Qed.

(** X12: for the frame of a log, the phases offered by the dashboard are
    the labels that occur in the frame, in the order preflop, flop, turn,
    river, unknown. *)
Theorem all_phases_in_poker_order (lines : list string) :
  all_phases (rows_of (load_log_data lines)) =
    filter (fun p => p ∈ phase <$> rows_of (load_log_data lines))
      ["preflop"; "flop"; "turn"; "river"; "unknown"].
Proof.
  set (df := rows_of (load_log_data lines)).
  set (R := fun p q : string => (phase_key p <=? phase_key q)%nat = true).
  apply (StronglySorted_unique_strong R).
  - intros x1 x2 Hx1 [_ Hx2]%list_elem_of_filter. unfold all_phases in Hx1.
    rewrite sorted_perm, elem_of_unique in Hx1. apply phase_of_rows in Hx1.
    unfold R. revert Hx1 Hx2. rewrite !elem_of_cons, !elem_of_nil.
    intros [->|[->|[->|[->|[->|[]]]]]] [->|[->|[->|[->|[->|[]]]]]];
      vm_compute; first [done | discriminate].
  - apply sorted_ordered; [apply phase_key_le_total | apply phase_key_le_trans].
  - apply StronglySorted_filter. unfold R.
    repeat (apply StronglySorted_cons; split; [repeat constructor|]). constructor.
  - apply NoDup_Permutation.
    + unfold all_phases. rewrite sorted_perm. apply NoDup_unique.
    + apply NoDup_filter. apply (bool_decide_unpack _). by vm_compute.
    + intros p. unfold all_phases. rewrite sorted_perm, elem_of_unique,
        list_elem_of_filter. split; [|by intros [? _]].
      intros Hp. split; [done|]. exact (phase_of_rows lines p Hp).
Qed.

(** X13: with the default choices of the widgets (all players, no hand,
    all phases) the filtered frame is the whole frame. *)
Theorem default_selection_keeps_all (df : list ActionRecord) :
  filtered_df df (all_players df) [] (all_phases df) = imap pair df.
Proof.
  unfold filtered_df. apply filter_all.
  intros [j r] (j' & r' & [= -> ->] & Hr)%elem_of_lookup_imap. simpl.
  apply list_elem_of_lookup_2 in Hr.
  unfold clause_holds. simpl. rewrite !andb_true_r.
  apply andb_true_iff. split; apply bool_decide_eq_true.
  - unfold all_players. rewrite sorted_perm, elem_of_unique.
    apply list_elem_of_fmap. by exists r'.
  - unfold all_phases. rewrite sorted_perm, elem_of_unique.
    apply list_elem_of_fmap. by exists r'.
Qed.

(** X14: the indices offered for inspection are at most 1000, in
    ascending order, and each is the index of a row of the frame that
    passes the three filters; an empty choice of hands filters nothing. *)
Theorem available_indices_valid (df : list ActionRecord)
    (selected_players : list string) (selected_hands : list Z)
    (selected_phases : list string) :
  let options :=
    available_indices (filtered_df df selected_players selected_hands selected_phases) in
  (List.length options <= 1000)%nat /\
  StronglySorted lt options /\
  forall x, x ∈ options ->
    exists r, df !! x = Some r /\
      agent_name r ∈ selected_players /\
      phase r ∈ selected_phases /\
      (selected_hands = [] \/ hand_id r ∈ selected_hands).
Proof.
  simpl. unfold available_indices.
  set (indices := fst <$> filtered_df df selected_players selected_hands selected_phases).
  assert (Hsorted : StronglySorted lt indices).
  { unfold indices, filtered_df.
    apply (StronglySorted_fmap fst
             (fun a b : nat * ActionRecord => (fst a < fst b)%nat) lt); [done|].
    apply StronglySorted_filter. apply (imap_pair_sorted df 0). }
  assert (Hvalid : forall x, x ∈ indices ->
    exists r, df !! x = Some r /\
      agent_name r ∈ selected_players /\
      phase r ∈ selected_phases /\
      (selected_hands = [] \/ hand_id r ∈ selected_hands)).
  { intros x ([j r] & -> & Hin)%list_elem_of_fmap. unfold filtered_df in Hin.
    apply list_elem_of_filter in Hin as [Hq Hin].
    apply elem_of_lookup_imap in Hin as (j' & r' & [= -> ->] & Hr).
    exists r'. split; [done|]. simpl in Hq.
    destruct selected_hands as [|h hs]; simpl in Hq; unfold clause_holds in Hq;
      simpl in Hq; rewrite ?andb_true_r in Hq.
    - apply andb_true_iff in Hq as [H1 H2].
      apply bool_decide_eq_true in H1, H2. auto.
    - apply andb_true_iff in Hq as [H1 Hq]. apply andb_true_iff in Hq as [H2 H3].
      apply bool_decide_eq_true in H1, H2, H3. auto. }
  destruct (1000 <? List.length indices)%nat eqn:Hlen.
  - split; [rewrite length_take; lia|]. split.
    + rewrite <- (take_drop 1000 indices) in Hsorted.
      by apply StronglySorted_app_1_l in Hsorted.
    + intros x (j & Hj & _)%elem_of_take. apply Hvalid.
      by eapply list_elem_of_lookup_2.
  - apply Nat.ltb_ge in Hlen. done.
Qed.

End DashboardProperties.

(** ** Logs that continue a log *)

Section Compose.

(** The inner loop stops at the same line when lines are added after
    the one it stops at. *)
Lemma read_block_app (r1 r2 : list string) :
  forall (i0 : nat) (js : string) (lv : Z) (i' : nat) (js' : string) (lv' : Z),
    read_block r1 i0 js lv = (i', js', lv') ->
    (i' < i0 + List.length r1)%nat ->
    read_block (r1 ++ r2) i0 js lv = (i', js', lv').
Proof.
  induction r1 as [|json_line r1 IH]; intros i0 js lv i' js' lv' H Hlt;
    pose proof (read_block_cursor _ _ _ _ _ _ _ H) as Hcur; simpl in *.
  - lia.
  - destruct (0 <? count "}" json_line).
    + destruct (lv - count "}" json_line =? 0); [done|].
      destruct (lv - count "}" json_line <? 0); [done|].
      apply IH; [done|lia].
    + destruct (contains "{" json_line); (apply IH; [done|lia]).
Qed.

(** The inner loop numbers the lines from the cursor it is given. *)
Lemma read_block_shift (k : nat) (rest : list string) :
  forall (i0 : nat) (js : string) (lv : Z),
    read_block rest (k + i0) js lv =
      let '(i', js', lv') := read_block rest i0 js lv in ((k + i')%nat, js', lv').
Proof.
  induction rest as [|json_line rest IH]; intros i0 js lv; simpl; [done|].
  destruct (0 <? count "}" json_line).
  - destruct (lv - count "}" json_line =? 0); [done|].
    destruct (lv - count "}" json_line <? 0); [done|].
    rewrite <- IH. f_equal. lia.
  - destruct (contains "{" json_line); rewrite <- IH; f_equal; lia.
Qed.

(** An iteration that stays inside [l1] is the same when lines follow. *)
Lemma body_app (l1 l2 : list string) (st st' : state) :
  body l1 st = Ok st' ->
  (i st < List.length l1)%nat ->
  (i st' <= List.length l1)%nat ->
  body (l1 ++ l2) st = Ok st'.
Proof.
  intros Hbody Hi Hle. unfold body in *. rewrite (lookup_app_l l1 l2) by done.
  destruct (l1 !! i st) as [line|]; [|done].
  destruct (hand_match line); [done|].
  destruct (prompt_match line); [|done].
  rewrite drop_app_le by lia.
  destruct (read_block (drop (S (i st)) l1) _ _ _) as [[i' js] lv] eqn:Hrb.
  assert (Heq : i st' = S i').
  { destruct (negb (lv =? 0)); [|destruct (loads js)]; by injection Hbody as <-. }
  rewrite (read_block_app _ l2 _ _ _ _ _ _ Hrb); [done|].
  rewrite length_drop. lia.
Qed.

(** An exception of an iteration does not depend on the lines after it. *)
Lemma body_app_raise (l1 l2 : list string) (st : state) (e : exn) :
  body l1 st = Raise e -> body (l1 ++ l2) st = Raise e.
Proof.
  intros Hbody.
  destruct (body_raise _ _ _ Hbody) as (line & agent & act & amt & reason & pd & raw
                                        & Hl & Hd & Hc & Hrow).
  pose proof (lookup_lt_Some _ _ _ Hl) as Hi.
  unfold body in *. rewrite (lookup_app_l l1 l2) by done. rewrite Hl in *.
  destruct (hand_match line); [done|].
  destruct (prompt_match line); [|done].
  destruct (read_block (drop (S (i st)) l1) _ _ _) as [[i' js] lv].
  destruct (negb (lv =? 0)); [|destruct (loads js)]; discriminate.
Qed.

(** The rows only grow. *)
Lemma step_grows (lines : list string) (st st' : state) :
  step lines st st' -> data st `prefix_of` data st'.
Proof. destruct 1; simpl; try done. by apply prefix_app_r. Qed.

Lemma exec_grows (lines : list string) (st : state) (rows : list ActionRecord) :
  exec lines st (Frame rows) -> data st `prefix_of` rows.
Proof.
  intros H. remember (Frame rows) as o eqn:Ho. revert rows Ho.
  induction H as [st Hge | st e Hlt Hb | st st' o Hlt Hb _ IH]; intros rows Ho.
  - by injection Ho as <-.
  - discriminate.
  - etrans; [|by apply IH]. apply (step_grows lines). by apply body_step.
Qed.

(** The scan of a log and the scan of the log with more lines after it. *)
Lemma exec_app (l1 l2 : list string) (st : state) (o1 : outcome)
    (rows : list ActionRecord) :
  exec l1 st o1 ->
  exec (l1 ++ l2) st (Frame rows) ->
  exists rows1, o1 = Frame rows1 /\ rows1 `prefix_of` rows.
Proof.
  intros H1. revert rows.
  induction H1 as [st Hge | st e Hlt Hb | st st' o Hlt Hb Hrest IH]; intros rows H2.
  - exists (data st). split; [done|]. by eapply exec_grows.
  - apply (body_app_raise l1 l2) in Hb.
    inversion H2 as [? Hge | | ? st2 ? Hlt2 Hb2 Hrest2]; subst.
    + rewrite length_app in Hge. lia.
    + congruence.
  - destruct (decide (i st' <= List.length l1)%nat) as [Hle|Hgt].
    + apply (body_app l1 l2) in Hb; [|done|done].
      inversion H2 as [? Hge | | ? st2 ? Hlt2 Hb2 Hrest2]; subst.
      * rewrite length_app in Hge. lia.
      * rewrite Hb in Hb2. injection Hb2 as <-. by apply IH.
    + inversion Hrest as [? Hge | ? ? Hlt' | ? ? ? Hlt' ]; subst; [|lia|lia].
      exists (data st'). split; [done|].
      assert (Hdata : data st' = data st).
      { apply body_step in Hb; [|done]. destruct Hb; simpl in *; try done; lia. }
      rewrite Hdata. by eapply exec_grows.
Qed.

(** X15: the rows of a log are the first rows of every log that continues
    it: when the longer log gives a frame, the log gives a frame too, and
    its rows are the first rows of the longer one, in the same order. *)
Theorem rows_of_a_longer_log (l1 l2 : list string) (rows : list ActionRecord) :
  load_log_data (l1 ++ l2) = Frame rows ->
  exists rows1, load_log_data l1 = Frame rows1 /\ rows1 `prefix_of` rows.
Proof.
  intros H. apply (exec_app l1 l2 init); [apply load_log_data_exec|].
  rewrite <- H. apply load_log_data_exec.
Qed.


(** The cursor does not move back. *)
Lemma scan_cursor (lines : list string) (fuel : nat) :
  forall st st1 : state, scan fuel lines st = Ok st1 -> (i st <= i st1)%nat.
Proof.
  induction fuel as [|fuel IH]; intros st st1; simpl.
  - destruct (i st <? List.length lines)%nat; by intros [= <-].
  - destruct (i st <? List.length lines)%nat eqn:Hi; [|by intros [= <-]].
    apply Nat.ltb_lt in Hi.
    destruct (body lines st) as [st'|] eqn:Hb; simpl; [|discriminate].
    intros H. apply IH in H. apply body_advances in Hb; [lia|done].
Qed.

(** A scan that ends on the last line of [l1] is the start of the scan of
    any log that continues [l1]. *)
Lemma exec_reach (l1 l2 : list string) (fuel : nat) :
  forall (st st1 : state) (o : outcome),
    scan fuel l1 st = Ok st1 ->
    i st1 = List.length l1 ->
    exec (l1 ++ l2) st1 o ->
    exec (l1 ++ l2) st o.
Proof.
  induction fuel as [|fuel IH]; intros st st1 o; simpl.
  - destruct (i st <? List.length l1)%nat eqn:Hi; intros [= <-]; [|done].
    apply Nat.ltb_lt in Hi. lia.
  - destruct (i st <? List.length l1)%nat eqn:Hi; [|by intros [= <-]].
    apply Nat.ltb_lt in Hi.
    destruct (body l1 st) as [st'|] eqn:Hb; simpl; [|discriminate].
    intros Hscan Hend Hexec.
    pose proof (scan_cursor _ _ _ _ Hscan) as Hmono.
    apply exec_iter with st'.
    + rewrite length_app. lia.
    + apply body_app; [done | done | lia].
    + by eapply IH.
Qed.

(** An iteration on a log that follows [l1] and the rows [rows]. *)
Lemma body_shifted (l1 l : list string) (rows : list ActionRecord) (st : state) :
  body (l1 ++ l) (shifted (List.length l1) rows st) =
    match body l st with
    | Ok st' => Ok (shifted (List.length l1) rows st')
    | Raise e => Raise e
    end.
Proof.
  unfold body. simpl.
  rewrite lookup_app_r by lia.
  replace (List.length l1 + i st - List.length l1)%nat with (i st) by lia.
  destruct (l !! i st) as [line|]; [|done].
  destruct (hand_match line);
    [unfold shifted; simpl; by rewrite Nat.add_succ_r|].
  destruct (prompt_match line).
  { replace (S (List.length l1 + i st)) with (List.length l1 + S (i st))%nat by lia.
    rewrite drop_app_add, read_block_shift.
    destruct (read_block (drop (S (i st)) l) _ _ _) as [[i' js] lv].
    destruct (negb (lv =? 0)); [|destruct (loads js)]; unfold shifted; simpl;
      by rewrite Nat.add_succ_r. }
  destruct (decision_match line) as [[[[agent act] amt] reason]|];
    [|unfold shifted; simpl; by rewrite Nat.add_succ_r].
  destruct (agent_prompts st !! agent) as [[pd raw]|];
    [|unfold shifted; simpl; by rewrite Nat.add_succ_r].
  destruct (correlate _ _ _ _ _ _) as [row|]; simpl; [|done].
  unfold shifted. simpl. by rewrite app_assoc, Nat.add_succ_r.
Qed.

Lemma exec_shifted (l1 l : list string) (rows : list ActionRecord)
    (st : state) (o : outcome) :
  exec l st o ->
  exec (l1 ++ l) (shifted (List.length l1) rows st) (after_rows rows o).
Proof.
  induction 1 as [st Hge | st e Hlt Hb | st st' o Hlt Hb _ IH].
  - apply (exec_done (l1 ++ l) (shifted (List.length l1) rows st)).
    simpl. rewrite length_app. lia.
  - apply exec_raise; [simpl; rewrite length_app; lia|].
    by rewrite body_shifted, Hb.
  - eapply exec_iter; [simpl; rewrite length_app; lia | | exact IH].
    by rewrite body_shifted, Hb.
Qed.

(** X16: a log can be cut at a hand marker.  When the scan of the lines
    before the marker ends on the last of them (no block runs past it),
    the outcome of the whole log is the outcome of the part that starts
    at the marker, with the rows of the first part before its rows; a
    failure of the second part is the failure of the whole. *)
Theorem log_cut_at_marker (l1 l2 : list string) (marker n : string) (st1 : state) :
  hand_match marker = Some n ->
  final_state l1 = Ok st1 ->
  i st1 = List.length l1 ->
  load_log_data (l1 ++ marker :: l2) =
    after_rows (data st1) (load_log_data (marker :: l2)).
Proof.
  intros Hmarker Hfinal Hend.
  eapply exec_deterministic; [apply load_log_data_exec|].
  eapply exec_reach; [exact Hfinal | exact Hend |].
  pose proof (exec_shifted l1 (marker :: l2) (data st1) init _
                (load_log_data_exec (marker :: l2))) as Hshift.
  assert (Hnext : forall st : state, i st = List.length l1 ->
    body (l1 ++ marker :: l2) st =
      Ok {| i := S (i st); current_hand := int_of n; agent_prompts := ∅;
            data := data st |}).
  { intros st Hst. apply body_hand_marker with marker; [|done].
    rewrite lookup_app_r by lia. by rewrite Hst, Nat.sub_diag. }
  inversion Hshift as [? Hge | ? e Hlt Hb Ho | ? st' o Hlt Hb Hrest Ho]; subst.
  - simpl in Hge. rewrite length_app in Hge. simpl in Hge. lia.
  - rewrite Hnext in Hb by (simpl; lia). discriminate.
  - rewrite Hnext in Hb by (simpl; lia). injection Hb as <-.
    eapply exec_iter; [rewrite length_app; simpl; lia | by apply Hnext |].
    simpl in Hrest. rewrite app_nil_r, Nat.add_0_r in Hrest.
    rewrite Hend. exact Hrest.
Qed.

End Compose.

Lemma rows_of_a_longer_log_example :
  exists rows1 : list ActionRecord,
    load_log_data (take 4 orphan_lines) = Frame rows1 /\
    rows1 `prefix_of` [orphan_row].
Proof.
  apply (rows_of_a_longer_log (take 4 orphan_lines) (drop 4 orphan_lines)).
  vm_compute. reflexivity.
Defined.

Lemma log_cut_at_marker_example :
  load_log_data orphan_lines =
    after_rows [orphan_row] (load_log_data (drop 4 orphan_lines)).
Proof.
  exact (log_cut_at_marker (take 4 orphan_lines) (drop 5 orphan_lines)
           (lit "=== STARTING NEW HAND #2 ===\n") "2" orphan_state_4
           eq_refl eq_refl eq_refl).
Defined.
